(** * Shallow embedding of the scanning-pattern core of KristinChengWu/mapping

    Sources: [src/scanning/coordinates.py] (classes [SkyPattern], [Pong],
    [Daisy], [TelescopePattern]) and [src/scanning/scanning.py] (the older
    [CurvyPong] and [Daisy] classes).

    Python floats are modelled by the real numbers [R] of the Standard
    Library (exact arithmetic, no rounding), Python [int] by [Z], and a raised
    exception by the [Throw] branch of [Completion]. *)

From Stdlib Require Import ZArith Reals Lra Lia List Bool.
From Stdlib Require Import Reals.Zfloor Reals.Ratan.
Import ListNotations.

Open Scope R_scope.

(* ------------------------------------------------------------------ *)
(** ** Python values, exceptions and arithmetic helpers *)

Inductive PyException :=
  | ValueError
  | TypeError
  | UnboundLocalError
  | ZeroDivisionError
  | KeyError
  | IndexError
  | AssertionError
  (** not a Python exception: a [while] loop of the source did not stop
      within the fuel given to its model *)
  | NonTermination.

Inductive Completion (A : Type) : Type :=
  | Normal : A -> Completion A
  | Throw : PyException -> Completion A.

Arguments Normal {A} a.
Arguments Throw {A} e.

Definition bind {A B} (m : Completion A) (f : A -> Completion B) : Completion B :=
  match m with
  | Normal a => f a
  | Throw e => Throw e
  end.

Notation "'let*' x ':=' m 'in' f" := (bind m (fun x => f))
  (at level 200, x name, m at level 100, f at level 200).

(** Python float division raises on a zero divisor. *)
Definition py_div (a b : R) : Completion R :=
  if Req_EM_T b 0 then Throw ZeroDivisionError else Normal (a / b).

(** [math.sqrt] raises on a negative argument. *)
Definition py_sqrt (a : R) : Completion R :=
  if Rlt_dec a 0 then Throw ValueError else Normal (sqrt a).

(** [math.floor] and [math.ceil] on a float. *)
Definition py_floor (x : R) : Z := Zfloor x.
Definition py_ceil (x : R) : Z := Zceil x.

(** Python's float [x % m] for a positive modulus: the result has the sign
    of the divisor. *)
Definition py_mod (x m : R) : R := x - m * IZR (Zfloor (x / m)).

(** [math.radians] and [np.degrees]. *)
Definition radians (d : R) : R := d * (PI / 180).
Definition degrees (r : R) : R := r * (180 / PI).

(** Python's [max(a, b)] and [min(a, b)] keep the first argument on ties. *)
Definition py_max (a b : Z) : Z := if (a <? b)%Z then b else a.
Definition py_min (a b : Z) : Z := if (b <? a)%Z then b else a.

(** [list.index(v)]: first position holding [v] (the length when absent,
    where Python would raise; the callers below never reach that case). *)
Fixpoint py_index (l : list Z) (v : Z) : nat :=
  match l with
  | [] => 0
  | a :: l' => if (a =? v)%Z then 0 else S (py_index l' v)
  end.

(** [l[i] = v] inside the list bounds. *)
Fixpoint list_set {A} (l : list A) (i : nat) (v : A) : list A :=
  match l, i with
  | [], _ => []
  | _ :: l', O => v :: l'
  | a :: l', S i' => a :: list_set l' i' v
  end.

(* ------------------------------------------------------------------ *)
(** ** SkyPattern: repeat control (coordinates.py 23-115) *)

(** A row of the [time_offset, x_coord, y_coord] data frame. *)
Record Sample := mkSample { time_offset : R; x_coord : R; y_coord : R }.

Module SkyPattern.

(** The repeat keywords present in [**kwargs] (absent = [None]). *)
Record RepeatKwargs := mkRepeatKwargs {
  kw_num_repeat : option Z; kw_max_scan_duration : option R }.

(** [param['num_repeat']] is an int, or [math.nan] while only
    [max_scan_duration] is known. *)
Inductive NumRepeat := NRint (n : Z) | NRnan.

Record RepeatParam := mkRepeatParam {
  num_repeat : NumRepeat; max_scan_duration : option R }.

(** [SkyPattern._clean_param] (lines 73-92), repeat part. *)
Definition clean_param (repeatable : bool) (kw : RepeatKwargs) : Completion RepeatParam :=
  if repeatable then
    match kw_max_scan_duration kw, kw_num_repeat kw with
    | Some _, Some _ => Throw ValueError
    | Some msd, None => Normal (mkRepeatParam NRnan (Some msd))
    | None, nr => Normal (mkRepeatParam (NRint (match nr with Some n => n | None => 1%Z end)) None)
    end
  else
    match kw_max_scan_duration kw, kw_num_repeat kw with
    | None, None => Normal (mkRepeatParam (NRint 1) None)
    | _, _ => Throw ValueError
    end.

(** [data_temp['time_offset'] = time_offset + one_scan_duration*i] *)
Definition shift_copy (d : R) (data : list Sample) : list Sample :=
  map (fun s => mkSample (time_offset s + d) (x_coord s) (y_coord s)) data.

(** [data.iloc[-1]] *)
Definition last_row (data : list Sample) : Completion Sample :=
  match rev data with
  | [] => Throw IndexError
  | l :: _ => Normal l
  end.

(** [SkyPattern._repeat_scan] (lines 94-115): returns the final
    [num_repeat] and the repeated data. *)
Definition repeat_scan (param : RepeatParam) (sample_interval : R) (data : list Sample)
  : Completion (Z * list Sample) :=
  let* l := last_row data in
  let one_scan_duration := time_offset l + sample_interval in
  let* num_repeat :=
    match num_repeat param with
    | NRint n => Normal n
    | NRnan =>
        match max_scan_duration param with
        | None => Throw KeyError
        | Some max_scan_duration =>
            let* q := py_div max_scan_duration one_scan_duration in
            let n := py_floor q in
            if (n <? 1)%Z then Throw ValueError else Normal n
        end
    end in
  let data' :=
    if (1 <? num_repeat)%Z then
      fold_left (fun acc i => acc ++ shift_copy (one_scan_duration * INR i) data)
        (seq 1 (Z.to_nat num_repeat - 1)) data
    else data in
  Normal (num_repeat, data').

(** [self.time_offset[-1] + self.sample_interval], the [scan_duration]
    property (lines 196-198); [[-1]] of an empty column raises. *)
Definition scan_duration (sample_interval : R) (data : list Sample) : Completion R :=
  let* l := last_row data in
  Normal (time_offset l + sample_interval).

(** [np.diff] *)
Fixpoint np_diff (l : list R) : list R :=
  match l with
  | a :: ((b :: _) as rest) => (b - a) :: np_diff rest
  | _ => []
  end.

Definition np_sum (l : list R) : R := fold_right Rplus 0 l.

Definition np_mean (l : list R) : R := np_sum l / INR (length l).

(** [np.std] (population standard deviation, [ddof=0]) *)
Definition np_std (l : list R) : R :=
  let m := np_mean l in
  sqrt (np_mean (map (fun v => (v - m) ^ 2) l)).

(** The sample interval check of [SkyPattern.__init__] (lines 62-66, the same
    as [TelescopePattern.__init__] lines 688-693):
    [np.std(sample_interval_list)/np.mean(sample_interval_list) <= 0.01].
    On fewer than two rows [np.mean] of the empty difference array is [nan];
    with a zero mean the quotient is [nan] ([0/0]) or [inf]; every comparison
    with these is [False], so all three cases raise the [ValueError]. *)
Definition sample_interval_of (time_offset : list R) : Completion R :=
  let sample_interval_list := np_diff time_offset in
  match sample_interval_list with
  | [] => Throw ValueError
  | _ :: _ =>
      let m := np_mean sample_interval_list in
      if Req_EM_T m 0 then Throw ValueError
      else if Rle_dec (np_std sample_interval_list / m) (1 / 100) then Normal m
      else Throw ValueError
  end.

(** The three default columns of a saved data set. *)
Record Columns := mkColumns {
  col_time_offset : list R; col_x_coord : list R; col_y_coord : list R }.

(** [SkyPattern.save_data(path_or_buf=None, columns='default',
    include_repeats)] (lines 117-158): the returned dictionary
    [data[columns].to_dict('list')].  [int(len(data.index)/self.num_repeat)]
    truncates a nonnegative quotient, i.e. takes its floor, and
    [data.iloc[:before_index]] keeps the first [before_index] rows. *)
Definition save_data (include_repeats : bool) (num_repeat : Z) (data : list Sample) : Columns :=
  let data :=
    if negb include_repeats && (1 <? num_repeat)%Z then
      let before_index := py_floor (INR (length data) / IZR num_repeat) in
      firstn (Z.to_nat before_index) data
    else data in
  mkColumns (map time_offset data) (map x_coord data) (map y_coord data).

End SkyPattern.

(* ------------------------------------------------------------------ *)
(** ** Pong: number of vertices (coordinates.py 340-360, scanning.py 1511-1531) *)

Module Pong.

(** [if x_numvert%2 == y_numvert%2: ...] *)
Definition parity_fix (x_numvert y_numvert : Z) : Z * Z :=
  if (x_numvert mod 2 =? y_numvert mod 2)%Z then
    if (x_numvert >=? y_numvert)%Z then (x_numvert, y_numvert + 1)%Z
    else (x_numvert + 1, y_numvert)%Z
  else (x_numvert, y_numvert).

(** [while math.gcd(num_vert[most_i], num_vert[least_i]) != 1:
        num_vert[most_i] += 2]
    The unbounded loop is run with explicit fuel; [None] means the fuel ran
    out before the loop condition became false. *)
Fixpoint gcd_loop (fuel : nat) (num_vert : list Z) (most_i least_i : nat)
  : option (list Z) :=
  match fuel with
  | O => None
  | S fuel' =>
      if (Z.gcd (nth most_i num_vert 0%Z) (nth least_i num_vert 0%Z) =? 1)%Z
      then Some num_vert
      else gcd_loop fuel'
             (list_set num_vert most_i (nth most_i num_vert 0%Z + 2)%Z)
             most_i least_i
  end.

(** The integer part of the vertex computation, from the two ceilings.
    The fuel [least + 1] is enough: see [PongFacts.numvert_of_ceils_spec]. *)
Definition numvert_of_ceils (x0 y0 : Z) : option (Z * Z) :=
  let '(x_numvert, y_numvert) := parity_fix x0 y0 in
  let num_vert := [x_numvert; y_numvert] in
  let most_i := py_index num_vert (py_max x_numvert y_numvert) in
  let least_i := py_index num_vert (py_min x_numvert y_numvert) in
  let fuel := S (Z.to_nat (nth least_i num_vert 0%Z)) in
  match gcd_loop fuel num_vert most_i least_i with
  | Some nv => Some (nth 0 nv 0%Z, nth 1 nv 0%Z)
  | None => None
  end.

(** [vert_spacing = sqrt(2)*spacing; x_numvert = math.ceil(width/vert_spacing) ...] *)
Definition vert_spacing (spacing : R) : R := sqrt 2 * spacing.

Definition numvert (width height spacing : R) : Completion (Z * Z) :=
  let* qx := py_div width (vert_spacing spacing) in
  let* qy := py_div height (vert_spacing spacing) in
  match numvert_of_ceils (py_ceil qx) (py_ceil qy) with
  | Some nv => Normal nv
  | None => Throw NonTermination
  end.

Record PongParam := mkPongParam {
  num_term : Z; width : R; height : R; spacing : R; velocity : R;
  angle : R; sample_interval : R }.

(** [range(1, N+1, 2)] *)
Definition odd_range (N : Z) : list nat :=
  map (fun j => 2 * j + 1)%nat (seq 0 (Z.to_nat ((N + 1) / 2))).

(** [Pong._fourier_expansion] (coordinates.py 401-412): the position part;
    [math.pow(-1, (n-1)/2)] with [n] odd. *)
Definition fourier_expansion (num_term : Z) (amp t_count peri : R) : Completion R :=
  let N := (num_term * 2 - 1)%Z in
  let a := (8 * amp) / (PI ^ 2) in
  let* b := py_div (2 * PI) peri in
  let pos := fold_left
    (fun pos n => pos + (-1) ^ ((n - 1) / 2) / (INR n ^ 2) * sin (b * INR n * t_count))
    (odd_range N) 0 in
  Normal (pos * a).

(** [for i in range(pongcount): ...; t_count += sample_interval] *)
Fixpoint sample_loop (num_term : Z) (amp_x amp_y peri_x peri_y angle_rad si : R)
  (i : nat) (t_count : R) : Completion (list Sample) :=
  match i with
  | O => Normal []
  | S i' =>
      let* x_coord1 := fourier_expansion num_term amp_x t_count peri_x in
      let* y_coord1 := fourier_expansion num_term amp_y t_count peri_y in
      let* rest := sample_loop num_term amp_x amp_y peri_x peri_y angle_rad si
                     i' (t_count + si) in
      Normal (mkSample t_count
                (x_coord1 * cos angle_rad - y_coord1 * sin angle_rad)
                (x_coord1 * sin angle_rad + y_coord1 * cos angle_rad) :: rest)
  end.

(** The quantities of one generated period. *)
Record PongScan := mkPongScan {
  x_numvert : Z; y_numvert : Z; vavg : R; peri_x : R; peri_y : R;
  period : R; pongcount : Z; one_period : list Sample }.

(** Lines 340-397 of coordinates.py once [vavg] is known; the two
    generators differ only in that line. *)
Definition one_period_from_vavg (p : PongParam) (vavg_of : R -> Completion R)
  : Completion PongScan :=
  let vs := vert_spacing (spacing p) in
  let* nv := numvert (width p) (height p) (spacing p) in
  let '(x_numvert, y_numvert) := nv in
  let* vavg := vavg_of (velocity p) in
  let* peri_x := py_div (IZR x_numvert * vs * 2) vavg in
  let* peri_y := py_div (IZR y_numvert * vs * 2) vavg in
  let* period := py_div (IZR x_numvert * IZR y_numvert * vs * 2) vavg in
  let* q := py_div period (sample_interval p) in
  let pongcount := py_ceil q in
  let amp_x := IZR x_numvert * vs / 2 in
  let amp_y := IZR y_numvert * vs / 2 in
  let* data := sample_loop (num_term p) amp_x amp_y peri_x peri_y
                 (radians (angle p)) (sample_interval p) (Z.to_nat pongcount) 0 in
  Normal (mkPongScan x_numvert y_numvert vavg peri_x peri_y period pongcount data).

(** coordinates.py 367: [vavg = velocity/sqrt(2)] *)
Definition generate_one_period (p : PongParam) : Completion PongScan :=
  one_period_from_vavg p (fun velocity => py_div velocity (sqrt 2)).

(** [Pong.__init__] called with keyword arguments: [_clean_param] (which calls
    [SkyPattern._clean_param] with [repeatable = True]) then
    [_generate_scan], which ends with [self._repeat_scan(data)]. *)
Definition init (p : PongParam) (kw : SkyPattern.RepeatKwargs)
  : Completion (Z * list Sample) :=
  let* rp := SkyPattern.clean_param true kw in
  let* scan := generate_one_period p in
  SkyPattern.repeat_scan rp (sample_interval p) (one_period scan).

End Pong.

(** scanning.py 1495-1569, [CurvyPong._generate_scan]: the same algorithm
    with [vavg = velocity] (line 1538); the velocity, acceleration and jerk
    columns it also fills are not modelled. *)
Module CurvyPong.
Import Pong.

Definition generate_one_period (p : PongParam) : Completion PongScan :=
  one_period_from_vavg p (fun velocity => Normal velocity).

End CurvyPong.

(** scanning.py 1060-1066, [ScanPattern._central_diff], with
    [h = self.sample_interval]: one-sided differences at both ends and
    central differences inside.  [a[1]] raises [IndexError] on fewer than two
    samples; the divisions by [h] are [numpy] float divisions, which do not
    raise (the theorems below take [h <> 0]). *)
Module ScanPattern.

Definition central_diff (h : R) (a : list R) : Completion (list R) :=
  match a with
  | a0 :: a1 :: _ =>
      let new_a := [(a1 - a0) / h] in
      let new_a := new_a ++ map (fun i => (nth (i + 1) a 0 - nth (i - 1) a 0) / (2 * h))
                                (seq 1 (length a - 2)) in
      Normal (new_a ++ [(nth (length a - 1) a 0 - nth (length a - 2) a 0) / h])
  | _ => Throw IndexError
  end.

End ScanPattern.

(* ------------------------------------------------------------------ *)
(** ** Daisy (coordinates.py 414-582; the loop of scanning.py 1654-1733 is
    the same) *)

Module Daisy.

Record DaisyParam := mkDaisyParam {
  velocity : R; start_acc : R; R0 : R; Rt : R; Ra : R; T : R;
  sample_interval : R; y_offset : R }.

(** The loop variables [x, y, vx, vy, speed]. *)
Record DaisyState := mkDaisyState { x : R; y : R; vx : R; vy : R; speed : R }.

(** Python's [int()] on a float truncates toward zero. *)
Definition py_int (q : R) : Z := if Rle_dec 0 q then Zfloor q else Zceil q.

(** [np.arange(start, stop, step)] for a positive step. *)
Definition np_arange (start stop step : R) : list R :=
  map (fun i => start + INR i * step)
      (seq 0 (Z.to_nat (Zceil ((stop - start) / step)))).

(** The body of [for step in range(N)] (lines 526-561); [s0] is the target
    speed, all lengths in arcsec. *)
Definition step (s0 start_acc R0 Rt Ra dt : R) (st : DaisyState)
  : Completion DaisyState :=
  let '(mkDaisyState x y vx vy speed) := st in
  let speed := speed + start_acc * dt in
  let speed := if Rge_dec speed s0 then s0 else speed in
  let* r := py_sqrt (x * x + y * y) in
  (* Straight motion inside R0 *)
  if Rlt_dec r R0 then
    Normal (mkDaisyState (x + vx * speed * dt) (y + vy * speed * dt) vx vy speed)
  else
    let* xn := py_div x r in
    let* yn := py_div y r in
    let* q1 := py_div (Ra * Ra) r in
    let* q := py_div q1 r in
    let* sq := py_sqrt (1 - q) in
    if Rgt_dec (- xn * vx - yn * vy) sq then
      Normal (mkDaisyState (x + vx * speed * dt) (y + vy * speed * dt) vx vy speed)
    else
      let '(Nx, Ny) := if Rgt_dec (- xn * vy + yn * vx) 0 then (vy, - vx) else (- vy, vx) in
      let s := speed * dt in
      (* the first of the divisions by Rt raises when Rt = 0 *)
      if Req_EM_T Rt 0 then Throw ZeroDivisionError else
      Normal (mkDaisyState
        (x + ((s - s * s * s / Rt / Rt / 6) * vx + s * s / Rt / 2 * Nx))
        (y + ((s - s * s * s / Rt / Rt / 6) * vy + s * s / Rt / 2 * Ny))
        (vx + (- s * s / Rt / Rt / 2 * vx + (s / Rt + s * s * s / Rt / Rt / Rt / 6) * Nx))
        (vy + (- s * s / Rt / Rt / 2 * vy + (s / Rt + s * s * s / Rt / Rt / Rt / 6) * Ny))
        speed).

(** [for step in range(N): ...; x_coord[step] = x; y_coord[step] = y] *)
Fixpoint loop (n : nat) (s0 start_acc R0 Rt Ra dt : R) (st : DaisyState)
  : Completion (list (R * R)) :=
  match n with
  | O => Normal []
  | S n' =>
      let* st' := step s0 start_acc R0 Rt Ra dt st in
      let* rest := loop n' s0 start_acc R0 Rt Ra dt st' in
      Normal ((x st', y st') :: rest)
  end.

(** The initial state: [(vx, vy) = (1.0, 0.0)], [(x, y) = (0.0, y_offset)],
    [speed = 0]. *)
Definition init_state (y_offset : R) : DaisyState := mkDaisyState 0 y_offset 1 0 0.

(** [Daisy._generate_scan]: units are converted from deg to arcsec, and the
    data frame is built from [np.arange(0, T, dt)] and the [N] stored
    positions; [pd.DataFrame] raises [ValueError] on columns of different
    lengths, and [np.empty] on a negative size. *)
Definition generate_scan (p : DaisyParam) : Completion (list Sample) :=
  let s0 := velocity p * 3600 in
  let start_acc := start_acc p * 3600 in
  let R0 := R0 p * 3600 in
  let Rt := Rt p * 3600 in
  let Ra := Ra p * 3600 in
  let T := T p in
  let dt := sample_interval p in
  let y_offset := y_offset p * 3600 in
  let* q := py_div T dt in
  let N := py_int q in
  if (N <? 0)%Z then Throw ValueError else
  let* pos := loop (Z.to_nat N) s0 start_acc R0 Rt Ra dt (init_state y_offset) in
  let time_offset := np_arange 0 T dt in
  if Nat.eqb (length time_offset) (length pos) then
    Normal (map (fun '(t, (x, y)) => mkSample t (x / 3600) (y / 3600))
                (combine time_offset pos))
  else Throw ValueError.

(** [Daisy.__init__] with keyword arguments: [Daisy._clean_param] (lines
    477-486) only converts units and keeps any other keyword, such as
    [num_repeat] or [max_scan_duration], without looking at it; it does not
    call [SkyPattern._clean_param]. *)
Definition init (p : DaisyParam) (kw : SkyPattern.RepeatKwargs) : Completion (list Sample) :=
  generate_scan p.

End Daisy.

(* ------------------------------------------------------------------ *)
(** ** TelescopePattern (coordinates.py 588-945) *)

Module TelescopePattern.

(** [np.arctan2(y, x)] on finite, non-signed-zero arguments. *)
Definition atan2 (y x : R) : R :=
  if Rlt_dec 0 x then atan (y / x)
  else if Rlt_dec x 0 then
    (if Rle_dec 0 y then atan (y / x) + PI else atan (y / x) - PI)
  else if Rlt_dec 0 y then PI / 2
  else if Rlt_dec y 0 then - (PI / 2)
  else 0.

(** [_norm_angle] (lines 838-845) on a series: the window is anchored at
    [az[0] % 360]; [az[0]] of an empty series raises. *)
Definition norm_angle (az : list R) : Completion (list R) :=
  match az with
  | [] => Throw IndexError
  | az0 :: _ =>
      let lowest_az := py_mod az0 360 - 180 in
      Normal (map (fun v => py_mod (v - lowest_az) 360 + lowest_az) az)
  end.

(** Element-wise binary [numpy] operation on two series of equal length. *)
Definition map2 (f : R -> R -> R) (l1 l2 : list R) : list R :=
  map (fun '(a, b) => f a b) (combine l1 l2).

(** [cos_diff_az0[cos_diff_az0 > 1] = 1; ...[< -1] = -1] *)
Definition clip1 (c : R) : R :=
  if Rgt_dec c 1 then 1 else if Rlt_dec c (-1) then -1 else c.

(** The local function [func] of [_transform_to_boresight]. *)
Definition func (dist theta alt_0 alt_1 : R) : R :=
  sin alt_0 * cos dist + sin dist * cos alt_0 * sin (theta + alt_0) - sin alt_1.

(** [root_scalar(f, x0=guess, bracket=[-pi/2, pi/2], xtol=1e-6).root]: with
    a bracket, SciPy's [brentq] raises [ValueError] when [f] has the same
    strict sign at both ends; otherwise it returns a root approximation,
    [solver f guess]. *)
Definition brentq (solver : (R -> R) -> R -> R) (f : R -> R) (guess : R) : Completion R :=
  if Rgt_dec (f (- (PI / 2)) * f (PI / 2)) 0 then Throw ValueError
  else Normal (solver f guess).

(** The local [alt0]: the [np.empty] array, or the float [math.nan]
    assigned by the [except] branch. *)
Inductive Alt0 := Arr (l : list R) | FloatNaN.

(** The [for i, a1 in enumerate(alt1)] loop, with the local [a0] unbound
    ([None]) until a solve succeeds. *)
Fixpoint to_boresight_loop (solver : (R -> R) -> R -> R) (dist theta : R)
    (alt1 : list R) (i : nat) (alt0 : Alt0) (a0 : option R) (guess : R)
    : Completion Alt0 :=
  match alt1 with
  | [] => Normal alt0
  | a1 :: rest =>
      let '(alt0, a0, guess) :=
        match brentq solver (fun a => func dist theta a a1) guess with
        | Normal r => (alt0, Some r, r)
        | Throw _ => (FloatNaN, a0, guess)
        end in
      (* alt0[i] = a0 *)
      match a0 with
      | None => Throw UnboundLocalError
      | Some v =>
          match alt0 with
          | FloatNaN => Throw TypeError
          | Arr l => to_boresight_loop solver dist theta rest (S i) (Arr (list_set l i v)) a0 guess
          end
      end
  end.

(** [_transform_to_boresight] (lines 885-927); [1/np.cos(...)] and the
    other [numpy] divisions are real divisions here, the theorems below keep
    away from zero divisors. *)
Definition transform_to_boresight (solver : (R -> R) -> R -> R) (az1 alt1 : list R) (dist theta : R)
  : Completion (list R * list R) :=
  let dist := radians dist in
  let theta := radians theta in
  let alt1 := map radians alt1 in
  let az1 := map radians az1 in
  match alt1 with
  | [] => Throw IndexError
  | guess :: _ =>
      let* alt0 := to_boresight_loop solver dist theta alt1 0 (Arr (repeat 0 (length alt1))) None guess in
      match alt0 with
      | FloatNaN => Throw TypeError  (* not reached: each iteration ends by [alt0[i] = a0] *)
      | Arr alt0 =>
          let cos_diff_az0 := map2 (fun a0 a1 => (cos dist - sin a0 * sin a1) / (cos a0 * cos a1)) alt0 alt1 in
          let diff_az0 := map (fun c => acos (clip1 c)) cos_diff_az0 in
          let diff_az0 := map2 (fun d a0 =>
              if Rgt_dec theta (- a0 + PI / 2) then
                if Rlt_dec theta (- a0 + 3 * PI / 2) then - d else d
              else d) diff_az0 alt0 in
          let az0 := map2 (fun a d => a - d) az1 diff_az0 in
          let* az_out := norm_angle (map degrees az0) in
          Normal (az_out, map (fun a => py_mod (degrees a) 360) alt0)
      end
  end.

(** [_transform_from_boresight] (lines 929-945). *)
Definition transform_from_boresight (az0 alt0 : list R) (dist theta : R)
  : Completion (list R * list R) :=
  let dist := radians dist in
  let theta := radians theta in
  let alt0 := map radians alt0 in
  let az0 := map radians az0 in
  let alt1 := map (fun a0 => asin (sin a0 * cos dist + sin dist * cos a0 * sin (theta + a0))) alt0 in
  let az1 := map (fun '(a0, (z0, a1)) =>
      let sin_az1 := 1 / cos a1 * (cos a0 * sin z0 * cos dist + cos z0 * cos (theta + a0) * sin dist
                                   - sin a0 * sin z0 * sin dist * sin (theta + a0)) in
      let cos_az1 := 1 / cos a1 * (cos a0 * cos z0 * cos dist - sin z0 * cos (theta + a0) * sin dist
                                   - sin a0 * cos z0 * sin dist * sin (theta + a0)) in
      atan2 sin_az1 cos_az1) (combine alt0 (combine az0 alt1)) in
  let* az_out := norm_angle (map degrees az1) in
  Normal (az_out, map (fun a => py_mod (degrees a) 360) alt1).





Section GetLst.

(** Apparent sidereal time (hourangle) of a start time at the site. *)
Variable sidereal_time : R -> R.
(** The hour angle (rad) chosen from [start_el], [dec], the latitude and
    [moving_up]; it raises [ValueError] for an unreachable elevation or
    fails its [assert]. *)
Variable el_hour_angle : R -> bool -> Completion R.




End GetLst.

(** The instrument fields read by [_true_module_loc]: [instr_offset] and
    [instr_rot], in deg. *)
Record Instrument := mkInstrument { instr_x : R; instr_y : R; instr_rot : R }.

(** The [module] argument: ['boresight'], or a [(distance, theta)] location
    in deg (a module or slot name is first looked up in the instrument, which
    gives such a location). *)
Inductive ModuleLoc := Boresight | Loc (dist theta : R).

(** [_true_module_loc] (lines 847-883); [math.atan2] as [np.arctan2]. *)
Definition true_module_loc (instrument : Instrument) (module : ModuleLoc) : R * R :=
  match module with
  | Boresight => (0, 0)
  | Loc dist theta =>
      let theta := radians theta in
      let instr_x := instr_x instrument in
      let instr_y := instr_y instrument in
      let instr_rot := radians (instr_rot instrument) in
      let mod_x := dist * cos theta in
      let mod_y := dist * sin theta in
      let x_offset := mod_x * cos instr_rot - mod_y * sin instr_rot + instr_x in
      let y_offset := mod_x * sin instr_rot + mod_y * cos instr_rot + instr_y in
      (sqrt (x_offset ^ 2 + y_offset ^ 2), degrees (atan2 y_offset x_offset))
  end.

(** One sample of [_from_sky_pattern] (lines 815-836): [lst] in hourangle,
    [x], [y], [ra], [dec] in deg, [lat_rad] the site latitude.
    [self.lst - (sky_pattern.x_coord + self.ra)] is in hourangle (the
    degrees divided by 15) and one hourangle is [pi/12] rad.  The division
    giving [cos_az_rad] is a [numpy] division, which does not raise. *)
Definition from_sky_point (ra dec lat_rad : R) (s : R * (R * R)) : R * R :=
  let '(lst, (x, y)) := s in
  let hour_angle_rad := (lst - (x + ra) / 15) * (PI / 12) in
  let dec_rad := radians (y + dec) in
  let alt_rad := asin (sin dec_rad * sin lat_rad + cos dec_rad * cos lat_rad * cos hour_angle_rad) in
  let cos_az_rad := clip1 ((sin dec_rad - sin alt_rad * sin lat_rad) / (cos alt_rad * cos lat_rad)) in
  let az_rad := acos cos_az_rad in
  (* [az_rad[mask] = 2*pi - az_rad[mask]] with [mask = np.sin(hour_angle_rad) > 0] *)
  let az_rad := if Rgt_dec (sin hour_angle_rad) 0 then 2 * PI - az_rad else az_rad in
  (degrees az_rad, degrees alt_rad).

(** [_from_sky_pattern] on the columns: [(np.degrees(az_rad), np.degrees(alt_rad))]. *)
Definition from_sky_pattern (ra dec lat_rad : R) (lst x_coord y_coord : list R) : list R * list R :=
  let r := map (from_sky_point ra dec lat_rad) (combine lst (combine x_coord y_coord)) in
  (map fst r, map snd r).

End TelescopePattern.

(* ================================================================== *)
(** * Properties *)

(* ------------------------------------------------------------------ *)
(** ** Helper lemmas on the Python helpers *)

Lemma list_set_nth_same {A} (l : list A) i v d :
  (i < length l)%nat -> nth i (list_set l i v) d = v.
Proof.
  revert i; induction l as [|a l IH]; intros [|i] Hi; simpl in *; try lia; auto.
  apply IH; lia.
Qed.

Lemma list_set_nth_other {A} (l : list A) i j v d :
  i <> j -> nth j (list_set l i v) d = nth j l d.
Proof.
  revert i j; induction l as [|a l IH]; intros [|i] [|j] Hij; simpl; auto;
    try congruence.
Qed.

Lemma list_set_length {A} (l : list A) i v : length (list_set l i v) = length l.
Proof.
  revert i; induction l as [|a l IH]; intros [|i]; simpl; auto.
Qed.

Lemma py_div_nz (a b : R) : b <> 0 -> py_div a b = Normal (a / b).
Proof. intros H. unfold py_div. destruct (Req_EM_T b 0); [contradiction | reflexivity]. Qed.

Lemma py_ceil_pos (x : R) : 0 < x -> (1 <= py_ceil x)%Z.
Proof.
  intros Hx. unfold py_ceil.
  destruct (Zfloor_ceil_bound x) as [_ H].
  assert (0 < IZR (Zceil x)) by lra.
  apply lt_IZR in H0. lia.
Qed.

(* ------------------------------------------------------------------ *)
(** ** Pong vertex counts *)

Module PongFacts.
Import Pong.

Example numvert_of_ceils_ex1 : numvert_of_ceils 15 11 = Some (17%Z, 12%Z).
Proof. reflexivity. Qed.

Example numvert_of_ceils_ex2 : numvert_of_ceils 1 1 = Some (1%Z, 2%Z).
Proof. reflexivity. Qed.

(** For a least count [l >= 1] whose parity differs from [m] (or which is
    odd), some [k < l] makes [m + 2k] coprime with [l]. *)
Lemma coprime_step_exists (m l : Z) :
  (1 <= l)%Z -> (m mod 2 <> l mod 2 \/ l mod 2 = 1)%Z ->
  exists k, (0 <= k < l /\ Z.gcd (m + 2 * k) l = 1)%Z.
Proof.
  intros Hl Hpar.
  assert (Hl0 : l <> 0%Z) by lia.
  assert (Hmod : exists k, (0 <= k < l)%Z /\ exists c, (m + 2 * k = 1 + c * l)%Z).
  { pose proof (Z.mod_pos_bound l 2 ltac:(lia)) as Hl2.
    pose proof (Z.div_mod l 2 ltac:(lia)) as Hld.
    destruct (Z.eq_dec (l mod 2) 1) as [Hodd|Heven].
    - set (h := (l / 2)%Z) in *.
      set (X := ((1 - m) * (h + 1))%Z).
      exists (X mod l)%Z. split; [apply Z.mod_pos_bound; lia|].
      exists ((1 - m) - 2 * (X / l))%Z.
      rewrite (Z.mod_eq X l Hl0). unfold X. nia.
    - assert (Hl20 : (l mod 2 = 0)%Z) by lia.
      assert (Hm1 : (m mod 2 = 1)%Z).
      { pose proof (Z.mod_pos_bound m 2 ltac:(lia)). destruct Hpar; lia. }
      pose proof (Z.div_mod m 2 ltac:(lia)) as Hmd.
      set (h := (l / 2)%Z) in *. set (p := (m / 2)%Z) in *.
      assert (Hh : (1 <= h)%Z) by lia.
      exists ((- p) mod h)%Z.
      pose proof (Z.mod_pos_bound (- p) h ltac:(lia)).
      split; [lia|].
      exists (- ((- p) / h))%Z.
      rewrite (Z.mod_eq (- p) h ltac:(lia)). nia. }
  destruct Hmod as [k [Hk [c Hc]]].
  exists k. split; [exact Hk|].
  rewrite Hc, Z.gcd_comm, <- Z.gcd_mod by exact Hl0.
  rewrite Z.mod_add by exact Hl0.
  rewrite Z.gcd_mod by exact Hl0.
  apply Z.gcd_1_r.
Qed.

Lemma gcd_loop_some fuel nv mi li k :
  mi <> li -> (mi < length nv)%nat -> (k < fuel)%nat ->
  Z.gcd (nth mi nv 0%Z + 2 * Z.of_nat k) (nth li nv 0%Z) = 1%Z ->
  exists nv', gcd_loop fuel nv mi li = Some nv'.
Proof.
  revert nv k; induction fuel as [|fuel IH]; intros nv k Hne Hmi Hk Hg; [lia|].
  simpl. destruct (Z.gcd (nth mi nv 0%Z) (nth li nv 0%Z) =? 1)%Z eqn:E.
  - eauto.
  - destruct k as [|k].
    + simpl in Hg. rewrite Z.add_0_r in Hg. apply Z.eqb_neq in E. contradiction.
    + apply (IH _ k); [exact Hne | rewrite list_set_length; exact Hmi | lia |].
      rewrite list_set_nth_same by exact Hmi.
      rewrite list_set_nth_other by exact Hne.
      rewrite <- Hg. f_equal. lia.
Qed.

Lemma gcd_loop_spec fuel nv mi li nv' :
  mi <> li -> (mi < length nv)%nat -> gcd_loop fuel nv mi li = Some nv' ->
  Z.gcd (nth mi nv' 0%Z) (nth li nv' 0%Z) = 1%Z /\
  nth li nv' 0%Z = nth li nv 0%Z /\
  length nv' = length nv /\
  exists j, (0 <= j /\ nth mi nv' 0%Z = nth mi nv 0%Z + 2 * j)%Z.
Proof.
  revert nv; induction fuel as [|fuel IH]; intros nv Hne Hmi H; [discriminate|].
  simpl in H. destruct (Z.gcd (nth mi nv 0%Z) (nth li nv 0%Z) =? 1)%Z eqn:E.
  - injection H as <-. apply Z.eqb_eq in E.
    repeat split; auto. exists 0%Z. lia.
  - apply IH in H; [| exact Hne | rewrite list_set_length; exact Hmi].
    destruct H as (Hg & Hli & Hlen & j & Hj & Hmj).
    rewrite list_set_nth_other in Hli by exact Hne.
    rewrite list_set_nth_same in Hmj by exact Hmi.
    rewrite list_set_length in Hlen.
    repeat split; auto. exists (j + 1)%Z. lia.
Qed.

Lemma mod2_succ (a : Z) : ((a + 1) mod 2 <> a mod 2)%Z.
Proof.
  pose proof (Z.div_mod a 2 ltac:(lia)). pose proof (Z.mod_pos_bound a 2 ltac:(lia)).
  replace (a + 1)%Z with ((a mod 2 + 1) + (a / 2) * 2)%Z by lia.
  rewrite Z.mod_add by lia.
  destruct (Z.eq_dec (a mod 2) 0) as [E|E].
  - rewrite E. intro H1. compute in H1. discriminate.
  - replace (a mod 2)%Z with 1%Z by lia. intro H1. compute in H1. discriminate.
Qed.

Lemma mod2_add2 (a j : Z) : ((a + 2 * j) mod 2 = a mod 2)%Z.
Proof. rewrite Z.mul_comm. apply Z.mod_add. lia. Qed.

Lemma parity_fix_spec x0 y0 x y :
  (1 <= x0)%Z -> (1 <= y0)%Z -> parity_fix x0 y0 = (x, y) ->
  (1 <= x /\ 1 <= y /\ x mod 2 <> y mod 2)%Z.
Proof.
  unfold parity_fix. intros Hx Hy.
  destruct (x0 mod 2 =? y0 mod 2)%Z eqn:E;
    [apply Z.eqb_eq in E | apply Z.eqb_neq in E];
    [destruct (x0 >=? y0)%Z|]; intros H; injection H as <- <-;
    repeat split; try lia.
  - rewrite E. apply not_eq_sym, mod2_succ.
  - rewrite <- E. apply mod2_succ.
Qed.

Lemma mod2_cases (a : Z) : (a mod 2 = 0 \/ a mod 2 = 1)%Z.
Proof. pose proof (Z.mod_pos_bound a 2 ltac:(lia)). lia. Qed.

Lemma py_index_first (x y : Z) : py_index [x; y] x = 0%nat.
Proof. simpl. rewrite Z.eqb_refl. reflexivity. Qed.

Lemma py_index_second (x y : Z) : x <> y -> py_index [x; y] y = 1%nat.
Proof. intros H. simpl. rewrite (proj2 (Z.eqb_neq x y) H), Z.eqb_refl. reflexivity. Qed.

(** The integer part: from any two positive ceilings the loop terminates
    with the two assertions of the source satisfied. *)
Lemma numvert_of_ceils_spec (x0 y0 : Z) :
  (1 <= x0)%Z -> (1 <= y0)%Z ->
  exists x y, numvert_of_ceils x0 y0 = Some (x, y) /\
    (1 <= x /\ 1 <= y /\ Z.gcd x y = 1 /\
     ((x mod 2 = 0 /\ y mod 2 = 1) \/ (x mod 2 = 1 /\ y mod 2 = 0)))%Z.
Proof.
  intros Hx0 Hy0. unfold numvert_of_ceils.
  destruct (parity_fix x0 y0) as [x y] eqn:Hfix. cbv beta iota zeta.
  destruct (parity_fix_spec _ _ _ _ Hx0 Hy0 Hfix) as (Hx & Hy & Hpar).
  assert (Hxy : x <> y) by (intro; subst; contradiction).
  destruct (Z.lt_ge_cases x y) as [Hlt|Hgt].
  - (* y is the larger count: most_i = 1, least_i = 0 *)
    assert (Hmax : py_max x y = y) by (unfold py_max; rewrite (proj2 (Z.ltb_lt _ _) Hlt); auto).
    assert (Hmin : py_min x y = x) by (unfold py_min; rewrite (proj2 (Z.ltb_ge y x)) by lia; auto).
    rewrite Hmax, Hmin, (py_index_second x y Hxy), (py_index_first x y).
    change (nth 0 [x; y] 0%Z) with x.
    destruct (coprime_step_exists y x Hx (or_introl (not_eq_sym Hpar))) as (k & Hk & Hg).
    destruct (gcd_loop_some (S (Z.to_nat x)) [x; y] 1 0 (Z.to_nat k))
      as [nv Hnv]; [lia | simpl; lia | lia | simpl; rewrite Z2Nat.id by lia; exact Hg |].
    rewrite Hnv.
    destruct (gcd_loop_spec _ [x; y] 1 0 nv ltac:(lia) ltac:(simpl; lia) Hnv)
      as (Hg' & Hl & _ & j & Hj & Hm). cbn [nth] in Hl, Hm.
    exists (nth 0 nv 0%Z), (nth 1 nv 0%Z). split; [reflexivity|].
    split; [lia|]. split; [lia|].
    split; [rewrite Z.gcd_comm; exact Hg'|].
    rewrite Hl, Hm, mod2_add2.
    destruct (mod2_cases x), (mod2_cases y); lia.
  - (* x is the larger count: most_i = 0, least_i = 1 *)
    assert (Hmax : py_max x y = x) by (unfold py_max; rewrite (proj2 (Z.ltb_ge x y)) by lia; auto).
    assert (Hmin : py_min x y = y) by (unfold py_min; rewrite (proj2 (Z.ltb_lt y x)) by lia; auto).
    rewrite Hmax, Hmin, (py_index_second x y Hxy), (py_index_first x y).
    change (nth 1 [x; y] 0%Z) with y.
    destruct (coprime_step_exists x y Hy (or_introl Hpar)) as (k & Hk & Hg).
    destruct (gcd_loop_some (S (Z.to_nat y)) [x; y] 0 1 (Z.to_nat k))
      as [nv Hnv]; [lia | simpl; lia | lia | simpl; rewrite Z2Nat.id by lia; exact Hg |].
    rewrite Hnv.
    destruct (gcd_loop_spec _ [x; y] 0 1 nv ltac:(lia) ltac:(simpl; lia) Hnv)
      as (Hg' & Hl & _ & j & Hj & Hm). cbn [nth] in Hl, Hm.
    exists (nth 0 nv 0%Z), (nth 1 nv 0%Z). split; [reflexivity|].
    split; [lia|]. split; [lia|].
    split; [exact Hg'|].
    rewrite Hl, Hm, mod2_add2.
    destruct (mod2_cases x), (mod2_cases y); lia.
Qed.


Lemma vert_spacing_pos (spacing : R) : 0 < spacing -> 0 < vert_spacing spacing.
Proof.
  intros H. unfold vert_spacing. apply Rmult_lt_0_compat; [|exact H].
  apply sqrt_lt_R0. lra.
Qed.

Lemma numvert_spec (width height spacing : R) :
  0 < width -> 0 < height -> 0 < spacing ->
  exists x y, numvert width height spacing = Normal (x, y) /\
    (1 <= x /\ 1 <= y /\ Z.gcd x y = 1 /\
     ((x mod 2 = 0 /\ y mod 2 = 1) \/ (x mod 2 = 1 /\ y mod 2 = 0)))%Z.
Proof.
  intros Hw Hh Hs. pose proof (vert_spacing_pos _ Hs) as Hv.
  unfold numvert. rewrite !py_div_nz by lra. cbn [bind].
  destruct (numvert_of_ceils_spec (py_ceil (width / vert_spacing spacing))
              (py_ceil (height / vert_spacing spacing)))
    as (x & y & E & H);
    [apply py_ceil_pos, Rdiv_lt_0_compat; assumption ..|].
  rewrite E. exists x, y. split; [reflexivity | exact H].
Qed.

Lemma fourier_expansion_normal n amp t peri :
  peri <> 0 -> exists v, fourier_expansion n amp t peri = Normal v.
Proof.
  intros H. unfold fourier_expansion. rewrite py_div_nz by exact H.
  eexists. reflexivity.
Qed.

Lemma sample_loop_normal n ax ay px py ang si i t :
  px <> 0 -> py <> 0 ->
  exists data, sample_loop n ax ay px py ang si i t = Normal data /\ length data = i.
Proof.
  intros Hx Hy. revert t. induction i as [|i IH]; intros t.
  - exists []. split; reflexivity.
  - cbn [sample_loop].
    destruct (fourier_expansion_normal n ax t px Hx) as [vx Ex]. rewrite Ex.
    destruct (fourier_expansion_normal n ay t py Hy) as [vy Ey]. rewrite Ey.
    cbn [bind]. destruct (IH (t + si)) as (data & Ed & Hl). rewrite Ed.
    eexists. split; [reflexivity | simpl; rewrite Hl; reflexivity].
Qed.

(** The quantities of one generated period, for a per-axis speed [v]. *)
Lemma one_period_from_vavg_spec (p : PongParam) (vavg_of : R -> Completion R) (v : R) :
  0 < width p -> 0 < height p -> 0 < spacing p -> 0 < sample_interval p ->
  vavg_of (velocity p) = Normal v -> 0 < v ->
  exists scan, one_period_from_vavg p vavg_of = Normal scan /\
    numvert (width p) (height p) (spacing p) = Normal (x_numvert scan, y_numvert scan) /\
    vavg scan = v /\
    peri_x scan = IZR (x_numvert scan) * vert_spacing (spacing p) * 2 / v /\
    peri_y scan = IZR (y_numvert scan) * vert_spacing (spacing p) * 2 / v /\
    period scan = IZR (x_numvert scan) * IZR (y_numvert scan) * vert_spacing (spacing p) * 2 / v /\
    pongcount scan = py_ceil (period scan / sample_interval p) /\
    Z.of_nat (length (one_period scan)) = pongcount scan.
Proof.
  intros Hw Hh Hs Hsi Hv Hvpos.
  destruct (numvert_spec _ _ _ Hw Hh Hs) as (x & y & E & Hx & Hy & _).
  pose proof (vert_spacing_pos _ Hs) as Hvs.
  unfold one_period_from_vavg. rewrite E. cbn [bind]. rewrite Hv. cbn [bind].
  assert (Hx0 : 0 < IZR x) by (apply IZR_lt; lia).
  assert (Hy0 : 0 < IZR y) by (apply IZR_lt; lia).
  assert (Hpx : 0 < IZR x * vert_spacing (spacing p) * 2 / v).
  { apply Rdiv_lt_0_compat; [|exact Hvpos]. nra. }
  assert (Hpy : 0 < IZR y * vert_spacing (spacing p) * 2 / v).
  { apply Rdiv_lt_0_compat; [|exact Hvpos]. nra. }
  assert (Hper : 0 < IZR x * IZR y * vert_spacing (spacing p) * 2 / v).
  { apply Rdiv_lt_0_compat; [|exact Hvpos].
    assert (0 < IZR x * IZR y) by nra. nra. }
  rewrite !py_div_nz by lra. cbn [bind].
  assert (Hc : (1 <= py_ceil (IZR x * IZR y * vert_spacing (spacing p) * 2 / v / sample_interval p))%Z).
  { apply py_ceil_pos, Rdiv_lt_0_compat; assumption. }
  destruct (sample_loop_normal (num_term p)
              (IZR x * vert_spacing (spacing p) / 2) (IZR y * vert_spacing (spacing p) / 2)
              (IZR x * vert_spacing (spacing p) * 2 / v) (IZR y * vert_spacing (spacing p) * 2 / v)
              (radians (angle p)) (sample_interval p)
              (Z.to_nat (py_ceil (IZR x * IZR y * vert_spacing (spacing p) * 2 / v / sample_interval p)))
              0 ltac:(lra) ltac:(lra)) as (data & Ed & Hl).
  rewrite py_div_nz by lra. cbn [bind]. rewrite Ed. cbn [bind].
  eexists. split; [reflexivity|]. cbn.
  repeat split; try reflexivity.
  rewrite Hl. lia.
Qed.

Lemma pong_generate_one_period_spec (p : PongParam) :
  0 < width p -> 0 < height p -> 0 < spacing p -> 0 < velocity p -> 0 < sample_interval p ->
  exists scan, Pong.generate_one_period p = Normal scan /\
    numvert (width p) (height p) (spacing p) = Normal (x_numvert scan, y_numvert scan) /\
    vavg scan = velocity p / sqrt 2 /\
    peri_x scan = IZR (x_numvert scan) * vert_spacing (spacing p) * 2 / (velocity p / sqrt 2) /\
    peri_y scan = IZR (y_numvert scan) * vert_spacing (spacing p) * 2 / (velocity p / sqrt 2) /\
    period scan = IZR (x_numvert scan) * IZR (y_numvert scan) * vert_spacing (spacing p) * 2
                  / (velocity p / sqrt 2) /\
    pongcount scan = py_ceil (period scan / sample_interval p) /\
    Z.of_nat (length (one_period scan)) = pongcount scan.
Proof.
  intros Hw Hh Hs Hv Hsi.
  assert (H2 : 0 < sqrt 2) by (apply sqrt_lt_R0; lra).
  apply one_period_from_vavg_spec; try assumption.
  - apply py_div_nz. lra.
  - apply Rdiv_lt_0_compat; assumption.
Qed.

Lemma curvy_generate_one_period_spec (p : PongParam) :
  0 < width p -> 0 < height p -> 0 < spacing p -> 0 < velocity p -> 0 < sample_interval p ->
  exists scan, CurvyPong.generate_one_period p = Normal scan /\
    numvert (width p) (height p) (spacing p) = Normal (x_numvert scan, y_numvert scan) /\
    vavg scan = velocity p /\
    peri_x scan = IZR (x_numvert scan) * vert_spacing (spacing p) * 2 / velocity p /\
    peri_y scan = IZR (y_numvert scan) * vert_spacing (spacing p) * 2 / velocity p /\
    period scan = IZR (x_numvert scan) * IZR (y_numvert scan) * vert_spacing (spacing p) * 2
                  / velocity p /\
    pongcount scan = py_ceil (period scan / sample_interval p) /\
    Z.of_nat (length (one_period scan)) = pongcount scan.
Proof.
  intros Hw Hh Hs Hv Hsi.
  apply one_period_from_vavg_spec; try assumption. reflexivity.
Qed.

End PongFacts.

(** ** C4: the Pong vertex counts are coprime and of opposite parity *)

(** Claim C4: for every positive width, height and spacing, the vertex
    counts [x_numvert] and [y_numvert] computed by the Pong generator (the
    [while math.gcd(...) != 1] loop terminates) are coprime and exactly one
    of them is even, which are the two assertions of the source. *)
Theorem pong_numvert_coprime_opposite_parity (width height spacing : R) :
  0 < width -> 0 < height -> 0 < spacing ->
  exists x_numvert y_numvert,
    Pong.numvert width height spacing = Normal (x_numvert, y_numvert) /\
    (Z.gcd x_numvert y_numvert = 1 /\
     ((x_numvert mod 2 = 0 /\ y_numvert mod 2 = 1) \/
      (x_numvert mod 2 = 1 /\ y_numvert mod 2 = 0)))%Z.
Proof.
  intros Hw Hh Hs.
  destruct (PongFacts.numvert_spec width height spacing Hw Hh Hs)
    as (x & y & E & _ & _ & Hg & Hp).
  exists x, y. auto.
Qed.

Lemma pong_numvert_coprime_opposite_parity_witness :
  (0 < 2 /\ 0 < 3/2 /\ 0 < 1/10) /\
  exists x_numvert y_numvert,
    Pong.numvert 2 (3/2) (1/10) = Normal (x_numvert, y_numvert) /\
    (Z.gcd x_numvert y_numvert = 1 /\
     ((x_numvert mod 2 = 0 /\ y_numvert mod 2 = 1) \/
      (x_numvert mod 2 = 1 /\ y_numvert mod 2 = 0)))%Z.
Proof.
  split; [lra|].
  apply pong_numvert_coprime_opposite_parity; lra.
Defined.

(** ** C1: Pong per-axis speed, periods and sample count *)

(** Counterexample to claim C1 as stated: in coordinates.py the per-axis
    speed is [velocity/sqrt(2)], not [velocity] (here velocity = 1). *)
Lemma pong_vavg_not_velocity :
  exists scan,
    Pong.generate_one_period (Pong.mkPongParam 1 1 1 1 1 0 1) = Normal scan /\
    Pong.vavg scan <> Pong.velocity (Pong.mkPongParam 1 1 1 1 1 0 1).
Proof.
  destruct (PongFacts.pong_generate_one_period_spec (Pong.mkPongParam 1 1 1 1 1 0 1))
    as (scan & E & _ & Hv & _); cbn; try lra.
  exists scan. split; [exact E|]. rewrite Hv. cbn.
  assert (H2 : 0 < sqrt 2) by (apply sqrt_lt_R0; lra).
  intro H. assert (Hs : sqrt 2 = 1).
  { replace (sqrt 2) with (1 / (1 / sqrt 2)) by (field; lra). rewrite H. field. }
  pose proof (sqrt_sqrt 2 ltac:(lra)) as Hsq. rewrite Hs in Hsq. lra.
Qed.

(** Claim C1 (amended): for positive width, height, spacing, velocity and
    sample interval, the Pong generator of coordinates.py uses the per-axis
    speed [vavg = velocity/sqrt(2)] (velocity is the total speed) and the
    older [CurvyPong] generator of scanning.py uses [vavg = velocity]; in
    both, [peri_x = x_numvert*vert_spacing*2/vavg],
    [peri_y = y_numvert*vert_spacing*2/vavg],
    [period = x_numvert*y_numvert*vert_spacing*2/vavg], and one generated
    period has [ceil(period/sample_interval)] samples. *)
Theorem pong_period_quantities (p : Pong.PongParam) :
  0 < Pong.width p -> 0 < Pong.height p -> 0 < Pong.spacing p ->
  0 < Pong.velocity p -> 0 < Pong.sample_interval p ->
  let vs := Pong.vert_spacing (Pong.spacing p) in
  (exists scan, Pong.generate_one_period p = Normal scan /\
    Pong.vavg scan = Pong.velocity p / sqrt 2 /\
    Pong.peri_x scan = IZR (Pong.x_numvert scan) * vs * 2 / Pong.vavg scan /\
    Pong.peri_y scan = IZR (Pong.y_numvert scan) * vs * 2 / Pong.vavg scan /\
    Pong.period scan = IZR (Pong.x_numvert scan) * IZR (Pong.y_numvert scan) * vs * 2
                       / Pong.vavg scan /\
    Z.of_nat (length (Pong.one_period scan))
      = py_ceil (Pong.period scan / Pong.sample_interval p)) /\
  (exists scan, CurvyPong.generate_one_period p = Normal scan /\
    Pong.vavg scan = Pong.velocity p /\
    Pong.peri_x scan = IZR (Pong.x_numvert scan) * vs * 2 / Pong.vavg scan /\
    Pong.peri_y scan = IZR (Pong.y_numvert scan) * vs * 2 / Pong.vavg scan /\
    Pong.period scan = IZR (Pong.x_numvert scan) * IZR (Pong.y_numvert scan) * vs * 2
                       / Pong.vavg scan /\
    Z.of_nat (length (Pong.one_period scan))
      = py_ceil (Pong.period scan / Pong.sample_interval p)).
Proof.
  intros Hw Hh Hs Hv Hsi vs. split.
  - destruct (PongFacts.pong_generate_one_period_spec p Hw Hh Hs Hv Hsi)
      as (scan & E & _ & Hva & Hx & Hy & Hp & Hc & Hl).
    exists scan. rewrite Hva. repeat split; auto. rewrite Hl, Hc. reflexivity.
  - destruct (PongFacts.curvy_generate_one_period_spec p Hw Hh Hs Hv Hsi)
      as (scan & E & _ & Hva & Hx & Hy & Hp & Hc & Hl).
    exists scan. rewrite Hva. repeat split; auto. rewrite Hl, Hc. reflexivity.
Qed.

Lemma pong_period_quantities_witness :
  let p := Pong.mkPongParam 5 2 (3/2) (1/10) (1/2) 0 (1/100) in
  let vs := Pong.vert_spacing (Pong.spacing p) in
  (0 < Pong.width p /\ 0 < Pong.height p /\ 0 < Pong.spacing p /\
   0 < Pong.velocity p /\ 0 < Pong.sample_interval p) /\
  (exists scan, Pong.generate_one_period p = Normal scan /\
    Pong.vavg scan = Pong.velocity p / sqrt 2 /\
    Pong.peri_x scan = IZR (Pong.x_numvert scan) * vs * 2 / Pong.vavg scan /\
    Pong.peri_y scan = IZR (Pong.y_numvert scan) * vs * 2 / Pong.vavg scan /\
    Pong.period scan = IZR (Pong.x_numvert scan) * IZR (Pong.y_numvert scan) * vs * 2
                       / Pong.vavg scan /\
    Z.of_nat (length (Pong.one_period scan))
      = py_ceil (Pong.period scan / Pong.sample_interval p)) /\
  (exists scan, CurvyPong.generate_one_period p = Normal scan /\
    Pong.vavg scan = Pong.velocity p /\
    Pong.peri_x scan = IZR (Pong.x_numvert scan) * vs * 2 / Pong.vavg scan /\
    Pong.peri_y scan = IZR (Pong.y_numvert scan) * vs * 2 / Pong.vavg scan /\
    Pong.period scan = IZR (Pong.x_numvert scan) * IZR (Pong.y_numvert scan) * vs * 2
                       / Pong.vavg scan /\
    Z.of_nat (length (Pong.one_period scan))
      = py_ceil (Pong.period scan / Pong.sample_interval p)).
Proof.
  intros p vs. split; [cbn; lra|].
  apply (pong_period_quantities p); cbn; lra.
Defined.

(* ------------------------------------------------------------------ *)
(** ** Daisy *)

Lemma py_sqrt_nonneg (a : R) : 0 <= a -> py_sqrt a = Normal (sqrt a).
Proof. intros H. unfold py_sqrt. destruct (Rlt_dec a 0); [lra | reflexivity]. Qed.

Lemma py_sqrt_not_zerodiv (a : R) (k : R -> Completion Daisy.DaisyState) :
  bind (py_sqrt a) k = Throw ZeroDivisionError ->
  exists v, py_sqrt a = Normal v /\ k v = Throw ZeroDivisionError.
Proof.
  unfold py_sqrt. destruct (Rlt_dec a 0); cbn [bind]; [discriminate | eauto].
Qed.

Module DaisyFacts.
Import Daisy.

(** A step raises [ZeroDivisionError] only through the turn radius: the
    divisions by [r] sit in the branch where [r >= R0 > 0]. *)
Lemma step_zerodiv_only_Rt s0 start_acc R0 Rt Ra dt st :
  0 < R0 -> step s0 start_acc R0 Rt Ra dt st = Throw ZeroDivisionError -> Rt = 0.
Proof.
  intros HR0 H. destruct st as [x y vx vy sp]. unfold step in H.
  rewrite py_sqrt_nonneg in H by nra. cbn [bind] in H.
  destruct (Rlt_dec _ R0) as [Hlt|Hge]; [discriminate|].
  set (r := sqrt (x * x + y * y)) in *.
  assert (Hr : r <> 0) by lra.
  rewrite (py_div_nz x r Hr) in H. cbn [bind] in H.
  rewrite (py_div_nz y r Hr) in H. cbn [bind] in H.
  rewrite (py_div_nz (Ra * Ra) r Hr) in H. cbn [bind] in H.
  rewrite (py_div_nz (Ra * Ra / r) r Hr) in H. cbn [bind] in H.
  apply py_sqrt_not_zerodiv in H. destruct H as (sq & _ & H).
  destruct (Rgt_dec _ sq); [discriminate|].
  destruct (if Rgt_dec _ 0 then _ else _) as [Nx Ny].
  destruct (Req_EM_T Rt 0); [assumption | discriminate].
Qed.

(** At the origin the step takes the straight branch: heading unchanged. *)
Lemma step_at_origin s0 start_acc R0 Rt Ra dt st :
  0 < R0 -> x st = 0 -> y st = 0 ->
  exists st', step s0 start_acc R0 Rt Ra dt st = Normal st' /\
    vx st' = vx st /\ vy st' = vy st /\
    x st' = vx st * speed st' * dt /\ y st' = vy st * speed st' * dt.
Proof.
  intros HR0 Hx Hy. destruct st as [x y vx vy sp]. cbn in Hx, Hy. subst x y.
  unfold step. rewrite py_sqrt_nonneg by lra. cbn [bind].
  replace (0 * 0 + 0 * 0) with 0 by ring. rewrite sqrt_0.
  destruct (Rlt_dec 0 R0) as [_|Hn]; [|lra].
  eexists. split; [reflexivity|]. cbn. repeat split; ring.
Qed.

Lemma loop_no_zerodiv n s0 start_acc R0 Rt Ra dt st :
  0 < R0 -> Rt <> 0 -> loop n s0 start_acc R0 Rt Ra dt st <> Throw ZeroDivisionError.
Proof.
  intros HR0 HRt. revert st. induction n as [|n IH]; intros st; cbn [loop].
  - discriminate.
  - destruct (step s0 start_acc R0 Rt Ra dt st) as [st'|e] eqn:E; cbn [bind].
    + specialize (IH st'). destruct (loop n s0 start_acc R0 Rt Ra dt st'); cbn [bind];
        [discriminate | exact IH].
    + intro He. injection He as ->. apply step_zerodiv_only_Rt in E; auto.
Qed.

(** A step along the positive x axis, inside [R0]. *)
Lemma step_straight_x s0 start_acc R0 Rt Ra dt x sp :
  0 <= x -> x < R0 ->
  step s0 start_acc R0 Rt Ra dt (mkDaisyState x 0 1 0 sp) =
  let sp' := if Rge_dec (sp + start_acc * dt) s0 then s0 else sp + start_acc * dt in
  Normal (mkDaisyState (x + 1 * sp' * dt) (0 + 0 * sp' * dt) 1 0 sp').
Proof.
  intros Hx HR0. unfold step. rewrite py_sqrt_nonneg by nra. cbn [bind].
  replace (x * x + 0 * 0) with (x * x) by ring. rewrite sqrt_square by exact Hx.
  destruct (Rlt_dec x R0); [reflexivity | lra].
Qed.

Lemma py_int_exact (q : R) (n : Z) : (0 <= n)%Z -> IZR n <= q < IZR n + 1 -> py_int q = n.
Proof.
  intros Hn Hq. unfold py_int. destruct (Rle_dec 0 q).
  - apply Zfloor_eq. exact Hq.
  - apply IZR_le in Hn. lra.
Qed.

End DaisyFacts.

(** Claim C10: with [R0 > 0], the divisions by the radial distance [r]
    ([x/r], [y/r], [Ra*Ra/r/r]) are only evaluated when [r >= R0], so a
    Daisy step raises [ZeroDivisionError] only if the turn radius [Rt] is 0
    (excluded by its positive parameter domain) and no run of the loop with
    [Rt <> 0] raises it; a step starting at the origin takes the straight
    inside-R0 branch and leaves the heading [(vx, vy)] unchanged. *)
Theorem daisy_no_division_by_r (s0 start_acc R0 Rt Ra dt : R) :
  0 < R0 ->
  (forall st, Daisy.step s0 start_acc R0 Rt Ra dt st = Throw ZeroDivisionError -> Rt = 0) /\
  (Rt <> 0 -> forall n st,
     Daisy.loop n s0 start_acc R0 Rt Ra dt st <> Throw ZeroDivisionError) /\
  (forall st, Daisy.x st = 0 -> Daisy.y st = 0 ->
   exists st', Daisy.step s0 start_acc R0 Rt Ra dt st = Normal st' /\
     Daisy.vx st' = Daisy.vx st /\ Daisy.vy st' = Daisy.vy st /\
     Daisy.x st' = Daisy.vx st * Daisy.speed st' * dt /\
     Daisy.y st' = Daisy.vy st * Daisy.speed st' * dt).
Proof.
  intros HR0. split; [|split].
  - intros st. apply DaisyFacts.step_zerodiv_only_Rt. exact HR0.
  - intros HRt n st. apply DaisyFacts.loop_no_zerodiv; assumption.
  - intros st. apply DaisyFacts.step_at_origin. exact HR0.
Qed.

Lemma daisy_no_division_by_r_witness :
  0 < 3600 /\
  (forall st, Daisy.step 3600 3600 3600 3600 0 (1/400) st = Throw ZeroDivisionError -> 3600 = 0) /\
  (3600 <> 0 -> forall n st,
     Daisy.loop n 3600 3600 3600 3600 0 (1/400) st <> Throw ZeroDivisionError) /\
  (forall st, Daisy.x st = 0 -> Daisy.y st = 0 ->
   exists st', Daisy.step 3600 3600 3600 3600 0 (1/400) st = Normal st' /\
     Daisy.vx st' = Daisy.vx st /\ Daisy.vy st' = Daisy.vy st /\
     Daisy.x st' = Daisy.vx st * Daisy.speed st' * (1/400) /\
     Daisy.y st' = Daisy.vy st * Daisy.speed st' * (1/400)).
Proof.
  split; [lra|]. apply daisy_no_division_by_r. lra.
Defined.

(** ** C8: Daisy sample count *)

(** Claim C8 (code defect): with [T = 1] s and [dt = 0.4] s the generator
    integrates [N = int(T/dt) = 2] steps, all inside [R0], but
    [np.arange(0, T, dt)] has [ceil(T/dt) = 3] entries, so building the data
    frame raises [ValueError] instead of returning [N] samples at
    [0, dt, 2*dt, ...]. *)
Theorem daisy_sample_count_mismatch :
  let p := Daisy.mkDaisyParam 1 1 1 1 0 1 (2/5) 0 in
  Daisy.py_int (Daisy.T p / Daisy.sample_interval p) = 2%Z /\
  (exists pos, Daisy.loop 2 3600 3600 3600 3600 0 (2/5) (Daisy.init_state 0) = Normal pos /\
               length pos = 2%nat) /\
  length (Daisy.np_arange 0 (Daisy.T p) (Daisy.sample_interval p)) = 3%nat /\
  Daisy.generate_scan p = Throw ValueError.
Proof.
  intros p.
  assert (HN : Daisy.py_int (1 / (2 / 5)) = 2%Z)
    by (apply DaisyFacts.py_int_exact; [lia | split; lra]).
  assert (Hloop : Daisy.loop 2 3600 3600 3600 3600 0 (2/5) (Daisy.init_state 0) =
                  Normal [(576, 0); (1728, 0)]).
  { unfold Daisy.init_state. cbn [Daisy.loop].
    rewrite DaisyFacts.step_straight_x by lra. cbv zeta.
    destruct (Rge_dec (0 + 3600 * (2 / 5)) 3600) as [H|_]; [lra|]. cbn [bind].
    cbn [Daisy.x Daisy.y].
    replace (0 + 1 * (0 + 3600 * (2 / 5)) * (2 / 5)) with 576 by field.
    replace (0 + 0 * (0 + 3600 * (2 / 5)) * (2 / 5)) with 0 by field.
    rewrite DaisyFacts.step_straight_x by lra. cbv zeta.
    destruct (Rge_dec (0 + 3600 * (2 / 5) + 3600 * (2 / 5)) 3600) as [H|_]; [lra|].
    cbn [bind Daisy.x Daisy.y].
    replace (576 + 1 * (0 + 3600 * (2 / 5) + 3600 * (2 / 5)) * (2 / 5)) with 1728 by field.
    replace (0 + 0 * (0 + 3600 * (2 / 5) + 3600 * (2 / 5)) * (2 / 5)) with 0 by field.
    reflexivity. }
  assert (Har : length (Daisy.np_arange 0 1 (2 / 5)) = 3%nat).
  { unfold Daisy.np_arange. rewrite length_map, length_seq.
    replace (Zceil ((1 - 0) / (2 / 5))) with 3%Z; [reflexivity|].
    symmetry. apply Zceil_eq. split; lra. }
  split; [exact HN|]. split; [eexists; split; [exact Hloop | reflexivity]|].
  split; [exact Har|].
  unfold Daisy.generate_scan. cbn [p Daisy.velocity Daisy.start_acc Daisy.R0 Daisy.Rt
    Daisy.Ra Daisy.T Daisy.sample_interval Daisy.y_offset].
  rewrite py_div_nz by lra. cbn [bind]. rewrite HN. cbn -[Daisy.loop Daisy.np_arange].
  replace (1 * 3600) with 3600 by ring. replace (0 * 3600) with 0 by ring.
  change (PosDef.Pos.to_nat 2) with 2%nat. rewrite Hloop. cbn [bind]. rewrite Har. reflexivity.
Qed.

(** ** C9: repeat keywords *)

(** Claim C9 (code defect): the repeat checks of [SkyPattern._clean_param]
    hold where they run (both keywords rejected on a repeatable pattern,
    [floor(max_scan_duration / one_period_duration) < 1] rejected, and a
    non-repeatable pattern rejecting [num_repeat]), but [Daisy], a
    non-repeatable pattern, overrides [_clean_param] without calling the base
    check, so [Daisy(..., num_repeat=2)] is constructed without error. *)
Theorem daisy_accepts_num_repeat :
  let kw := SkyPattern.mkRepeatKwargs (Some 2%Z) None in
  SkyPattern.clean_param true (SkyPattern.mkRepeatKwargs (Some 2%Z) (Some 10)) = Throw ValueError /\
  SkyPattern.repeat_scan (SkyPattern.mkRepeatParam SkyPattern.NRnan (Some (1/2))) 1
    [mkSample 0 0 0] = Throw ValueError /\
  SkyPattern.clean_param false kw = Throw ValueError /\
  exists data, Daisy.init (Daisy.mkDaisyParam 1 1 1 1 0 1 1 0) kw = Normal data /\
               length data = 1%nat.
Proof.
  intros kw. split; [reflexivity|]. split.
  { unfold SkyPattern.repeat_scan. cbn [SkyPattern.last_row rev app bind time_offset
      SkyPattern.num_repeat SkyPattern.max_scan_duration].
    rewrite py_div_nz by lra. cbn [bind].
    replace (py_floor (1 / 2 / (0 + 1))) with 0%Z; [reflexivity|].
    symmetry. apply Zfloor_eq. split; lra. }
  split; [reflexivity|].
  assert (HN : Daisy.py_int (1 / 1) = 1%Z)
    by (apply DaisyFacts.py_int_exact; [lia | split; lra]).
  assert (Har : length (Daisy.np_arange 0 1 1) = 1%nat).
  { unfold Daisy.np_arange. rewrite length_map, length_seq.
    replace (Zceil ((1 - 0) / 1)) with 1%Z; [reflexivity|].
    symmetry. apply Zceil_eq. split; lra. }
  unfold Daisy.init, Daisy.generate_scan. cbn [Daisy.velocity Daisy.start_acc Daisy.R0
    Daisy.Rt Daisy.Ra Daisy.T Daisy.sample_interval Daisy.y_offset].
  rewrite py_div_nz by lra. cbn [bind]. rewrite HN. cbn -[Daisy.loop Daisy.np_arange].
  change (PosDef.Pos.to_nat 1) with 1%nat. replace (0 * 3600) with 0 by ring.
  unfold Daisy.init_state. cbn [Daisy.loop].
  rewrite DaisyFacts.step_straight_x by lra. cbv zeta. cbn [bind].
  rewrite Har. cbn [length Nat.eqb].
  eexists; split; [reflexivity|]. unfold Daisy.np_arange.
  rewrite length_map, length_combine, length_map, length_seq.
  replace (Zceil ((1 - 0) / 1)) with 1%Z; [reflexivity|].
  symmetry. apply Zceil_eq. split; lra.
Qed.

(** ** C5: repeating a one-period scan *)

Module RepeatFacts.

Lemma fold_shift_concat (c : R) (data : list Sample) (l : list nat) (acc : list Sample) :
  fold_left (fun acc i => acc ++ SkyPattern.shift_copy (c * INR i) data) l acc
  = acc ++ concat (map (fun i => SkyPattern.shift_copy (c * INR i) data) l).
Proof.
  revert acc; induction l as [|a l IH]; intros acc; cbn [fold_left map concat].
  - now rewrite app_nil_r.
  - rewrite IH, app_assoc. reflexivity.
Qed.

Lemma shift_copy_zero (d : R) (data : list Sample) : d = 0 -> SkyPattern.shift_copy d data = data.
Proof.
  intros ->. unfold SkyPattern.shift_copy.
  induction data as [|[t x y] l IH]; cbn [map]; [reflexivity|].
  rewrite IH. cbn [time_offset x_coord y_coord]. rewrite Rplus_0_r. reflexivity.
Qed.

Lemma length_shift_copy (d : R) (data : list Sample) :
  length (SkyPattern.shift_copy d data) = length data.
Proof. unfold SkyPattern.shift_copy. apply length_map. Qed.

Lemma nth_shift_copy (d : R) (data : list Sample) (i : nat) (s0 : Sample) :
  (i < length data)%nat ->
  nth i (SkyPattern.shift_copy d data) s0 =
  mkSample (time_offset (nth i data s0) + d) (x_coord (nth i data s0)) (y_coord (nth i data s0)).
Proof.
  intros Hi. unfold SkyPattern.shift_copy.
  rewrite nth_indep with (d' := mkSample (time_offset s0 + d) (x_coord s0) (y_coord s0))
    by (rewrite length_map; exact Hi).
  rewrite (map_nth (fun s => mkSample (time_offset s + d) (x_coord s) (y_coord s))).
  reflexivity.
Qed.

(** The data built by the loop of [_repeat_scan] is the concatenation of the
    copies [0 .. num_repeat-1], copy [k] shifted by [one_scan_duration * k]. *)
Lemma repeat_body_blocks (c : R) (data : list Sample) (r : Z) :
  (1 <= r)%Z ->
  (if (1 <? r)%Z then
     fold_left (fun acc i => acc ++ SkyPattern.shift_copy (c * INR i) data)
       (seq 1 (Z.to_nat r - 1)) data
   else data)
  = concat (map (fun k => SkyPattern.shift_copy (c * INR k) data) (seq 0 (Z.to_nat r))).
Proof.
  intros Hr. destruct (Z.ltb_spec 1 r) as [Hlt|Hge].
  - rewrite fold_shift_concat.
    replace (Z.to_nat r) with (S (Z.to_nat r - 1)) at 2 by lia.
    cbn [seq map concat]. rewrite (shift_copy_zero (c * INR 0)) by (cbn [INR]; ring).
    reflexivity.
  - assert (r = 1%Z) by lia. subst r. change (Z.to_nat 1) with 1%nat.
    cbn [seq map concat]. rewrite app_nil_r.
    rewrite shift_copy_zero by (cbn [INR]; ring). reflexivity.
Qed.

Lemma length_concat_uniform {A : Type} (n : nat) (l : list (list A)) :
  (forall x, In x l -> length x = n) -> length (concat l) = (length l * n)%nat.
Proof.
  induction l as [|a l IH]; intros Hl; cbn [concat length]; [reflexivity|].
  rewrite length_app, (Hl a) by (left; reflexivity).
  rewrite IH by (intros x Hx; apply Hl; right; exact Hx). lia.
Qed.

Lemma nth_concat_uniform {A : Type} (n : nat) (l : list (list A)) (d : A) (k i : nat) :
  (forall x, In x l -> length x = n) -> (k < length l)%nat -> (i < n)%nat ->
  nth (k * n + i) (concat l) d = nth i (nth k l []) d.
Proof.
  revert k; induction l as [|a l IH]; intros k Hl Hk Hi; cbn [length] in Hk; [lia|].
  assert (Ha : length a = n) by (apply Hl; left; reflexivity).
  destruct k as [|k]; cbn [concat nth].
  - rewrite app_nth1 by lia. reflexivity.
  - rewrite app_nth2 by (rewrite Ha; cbn [Nat.mul]; lia). rewrite Ha.
    replace (S k * n + i - n)%nat with (k * n + i)%nat by (cbn [Nat.mul]; lia).
    apply IH; [intros x Hx; apply Hl; right; exact Hx | lia | exact Hi].
Qed.

Lemma nth_map_seq {A : Type} (g : nat -> A) (d : A) (m k : nat) :
  (k < m)%nat -> nth k (map g (seq 0 m)) d = g k.
Proof.
  intros Hk. rewrite nth_indep with (d' := g 0%nat) by (rewrite length_map, length_seq; exact Hk).
  rewrite map_nth, seq_nth by exact Hk. reflexivity.
Qed.

Lemma blocks_length (c : R) (data : list Sample) (m : nat) :
  length (concat (map (fun k => SkyPattern.shift_copy (c * INR k) data) (seq 0 m)))
  = (length data * m)%nat.
Proof.
  rewrite (length_concat_uniform (length data)).
  - rewrite length_map, length_seq. lia.
  - intros x Hx. apply in_map_iff in Hx. destruct Hx as [k [<- _]]. apply length_shift_copy.
Qed.

Lemma blocks_nth (c : R) (data : list Sample) (m k i : nat) (s0 : Sample) :
  (k < m)%nat -> (i < length data)%nat ->
  nth (k * length data + i)
    (concat (map (fun k => SkyPattern.shift_copy (c * INR k) data) (seq 0 m))) s0
  = mkSample (time_offset (nth i data s0) + c * INR k)
      (x_coord (nth i data s0)) (y_coord (nth i data s0)).
Proof.
  intros Hk Hi. rewrite (nth_concat_uniform (length data)).
  - rewrite nth_map_seq by exact Hk. apply nth_shift_copy. exact Hi.
  - intros x Hx. apply in_map_iff in Hx. destruct Hx as [k' [<- _]]. apply length_shift_copy.
  - rewrite length_map, length_seq. exact Hk.
  - exact Hi.
Qed.

(** With base times [t0 + i*si] and period [t0 + (n-1)*si + si], sample [j]
    of the tiled data is at [t0*(1 + j/n) + j*si]. *)
Lemma blocks_time (t0 si : R) (data : list Sample) (m j : nat) (s0 : Sample) :
  (0 < length data)%nat ->
  (forall i, (i < length data)%nat -> time_offset (nth i data s0) = t0 + INR i * si) ->
  (j < length data * m)%nat ->
  time_offset (nth j
    (concat (map (fun k => SkyPattern.shift_copy
                             ((t0 + INR (length data - 1) * si + si) * INR k) data) (seq 0 m))) s0)
  = t0 * (1 + INR (j / length data)) + INR j * si.
Proof.
  intros Hn Hdata Hj. set (n := length data) in *.
  assert (Hnz : n <> 0%nat) by lia.
  assert (Hdm : j = (j / n * n + j mod n)%nat)
    by (rewrite (Nat.div_mod_eq j n) at 1; lia).
  assert (Hk : (j / n < m)%nat) by (apply Nat.Div0.div_lt_upper_bound; lia).
  assert (Hi : (j mod n < n)%nat) by (apply Nat.mod_upper_bound; exact Hnz).
  rewrite Hdm at 1. unfold n. rewrite blocks_nth by assumption. cbn [time_offset].
  rewrite Hdata by exact Hi. fold n.
  replace (INR j) with (INR (j / n * n + j mod n)) by (f_equal; symmetry; exact Hdm).
  rewrite plus_INR, mult_INR.
  rewrite minus_INR by lia. cbn [INR]. ring.
Qed.

Lemma rev_nth_last (l : list Sample) (d : Sample) :
  l <> [] -> exists l', rev l = nth (length l - 1) l d :: l'.
Proof.
  induction l as [|a l IH]; intros Hl; [congruence|].
  destruct l as [|b l].
  - exists []. reflexivity.
  - destruct IH as [l' Hr]; [discriminate|].
    exists (l' ++ [a]). cbn [rev] in *. rewrite Hr. cbn [length app].
    replace (S (S (length l)) - 1)%nat with (S (length l)) by lia. cbn [nth].
    replace (S (length l) - 1)%nat with (length l) by lia.
    reflexivity.
Qed.

End RepeatFacts.

(** Claim C5, refuted as stated: with base times [1, 2] (step 1, not
    starting at 0) and [num_repeat = 2], the repeated times are [1, 2, 4, 5];
    the step across the boundary is [2], not the constant step [1]. *)
Lemma repeat_scan_step_not_constant :
  exists d,
    SkyPattern.repeat_scan (SkyPattern.mkRepeatParam (SkyPattern.NRint 2) None) 1
      [mkSample 1 0 0; mkSample 2 0 0] = Normal (2%Z, d) /\
    map time_offset d = [1; 2; 4; 5] /\
    time_offset (nth 2 d (mkSample 0 0 0)) - time_offset (nth 1 d (mkSample 0 0 0)) <> 1.
Proof.
  eexists. split; [reflexivity|].
  cbn -[INR]. change (PosDef.Pos.to_nat 2 - 1)%nat with 1%nat. cbn -[INR]. cbn [INR]. split.
  - repeat f_equal; ring.
  - lra.
Qed.

(** Claim C5 (amended): for base time offsets [t0 + i*si] ([t0 >= 0],
    [si > 0], [n > 0] samples) and [num_repeat = r >= 1], [_repeat_scan]
    returns [n*r] samples; sample [k*n+i] is base sample [i] with its time
    shifted by [one_period_duration*k], where
    [one_period_duration = t0 + (n-1)*si + si]; sample [j] is at
    [t0*(1 + j/n) + j*si], so the times are strictly increasing, and when
    the base starts at [t0 = 0] the step is the constant [si]. *)
Theorem repeat_scan_tiling (t0 si : R) (data : list Sample) (r : Z) (msd : option R) :
  (0 < length data)%nat -> (1 <= r)%Z -> 0 <= t0 -> 0 < si ->
  (forall i, (i < length data)%nat -> time_offset (nth i data (mkSample 0 0 0)) = t0 + INR i * si) ->
  exists d,
    SkyPattern.repeat_scan (SkyPattern.mkRepeatParam (SkyPattern.NRint r) msd) si data
      = Normal (r, d) /\
    length d = (length data * Z.to_nat r)%nat /\
    (forall k i, (k < Z.to_nat r)%nat -> (i < length data)%nat ->
       nth (k * length data + i) d (mkSample 0 0 0) =
       mkSample (time_offset (nth i data (mkSample 0 0 0))
                   + (t0 + INR (length data - 1) * si + si) * INR k)
                (x_coord (nth i data (mkSample 0 0 0)))
                (y_coord (nth i data (mkSample 0 0 0)))) /\
    (forall j, (j < length d)%nat ->
       time_offset (nth j d (mkSample 0 0 0)) = t0 * (1 + INR (j / length data)) + INR j * si) /\
    (forall j, (S j < length d)%nat ->
       time_offset (nth j d (mkSample 0 0 0)) < time_offset (nth (S j) d (mkSample 0 0 0))) /\
    (t0 = 0 -> forall j, (S j < length d)%nat ->
       time_offset (nth (S j) d (mkSample 0 0 0)) = time_offset (nth j d (mkSample 0 0 0)) + si).
Proof.
  intros Hn Hr Ht0 Hsi Hdata.
  destruct (RepeatFacts.rev_nth_last data (mkSample 0 0 0)) as [l' Hrev];
    [destruct data; cbn [length] in Hn; [lia | discriminate]|].
  unfold SkyPattern.repeat_scan, SkyPattern.last_row. rewrite Hrev. cbn [bind SkyPattern.num_repeat].
  rewrite Hdata by lia. rewrite RepeatFacts.repeat_body_blocks by exact Hr.
  eexists. split; [reflexivity|].
  assert (Hlen := RepeatFacts.blocks_length (t0 + INR (length data - 1) * si + si) data (Z.to_nat r)).
  assert (Htime : forall j, (j < length data * Z.to_nat r)%nat ->
            time_offset (nth j (concat (map (fun k => SkyPattern.shift_copy
               ((t0 + INR (length data - 1) * si + si) * INR k) data) (seq 0 (Z.to_nat r))))
               (mkSample 0 0 0)) = t0 * (1 + INR (j / length data)) + INR j * si)
    by (intros j Hj; apply RepeatFacts.blocks_time; assumption).
  split; [exact Hlen|]. split.
  { intros k i Hk Hi. apply RepeatFacts.blocks_nth; assumption. }
  rewrite Hlen. split; [exact Htime|]. split.
  - intros j Hj. rewrite !Htime by lia.
    assert (Hdiv : (j / length data <= S j / length data)%nat) by (apply Nat.Div0.div_le_mono; lia).
    apply le_INR in Hdiv. rewrite S_INR.
    assert (0 <= t0 * (INR (S j / length data) - INR (j / length data))) by (apply Rmult_le_pos; lra).
    nra.
  - intros H0 j Hj. subst t0. rewrite !Htime by lia. rewrite S_INR. ring.
Qed.

(** A concrete tiling: three samples at [0, 0.5, 1], repeated twice. *)
Lemma repeat_scan_tiling_witness :
  (0 < length [mkSample 0 0 0; mkSample (1/2) 1 0; mkSample 1 2 0])%nat /\ (1 <= 2)%Z /\
  0 <= 0 /\ 0 < 1/2 /\
  exists d,
    SkyPattern.repeat_scan (SkyPattern.mkRepeatParam (SkyPattern.NRint 2) None) (1/2)
      [mkSample 0 0 0; mkSample (1/2) 1 0; mkSample 1 2 0] = Normal (2%Z, d) /\
    length d = 6%nat.
Proof.
  split; [cbn; lia|]. split; [lia|]. split; [lra|]. split; [lra|].
  destruct (repeat_scan_tiling 0 (1/2) [mkSample 0 0 0; mkSample (1/2) 1 0; mkSample 1 2 0] 2 None)
    as [d [Hd [Hl _]]].
  - cbn; lia.
  - lia.
  - lra.
  - lra.
  - intros i Hi. cbn [length] in Hi.
    destruct i as [|[|[|i]]]; cbn [nth time_offset INR]; [lra | lra | lra | lia].
  - exists d. split; [exact Hd|]. rewrite Hl. reflexivity.
Defined.

(** ** C6: azimuth normalisation *)

Module AngleFacts.

Lemma py_mod_bounds (x m : R) : 0 < m -> 0 <= py_mod x m < m.
Proof.
  intros Hm. unfold py_mod. destruct (Zfloor_bound (x / m)) as [Hlo Hhi].
  assert (Hx : x = m * (x / m)) by (field; lra).
  split.
  - rewrite Hx at 1. apply Rmult_le_compat_l with (r := m) in Hlo; lra.
  - rewrite Hx at 1. apply Rmult_lt_compat_l with (r := m) in Hhi; lra.
Qed.

Lemma py_mod_congr (x m : R) : py_mod x m = x + m * IZR (- Zfloor (x / m)).
Proof. unfold py_mod. rewrite opp_IZR. ring. Qed.

Lemma py_mod_eq (x m : R) (k : Z) : 0 < m -> IZR k <= x / m < IZR k + 1 -> py_mod x m = x - m * IZR k.
Proof. intros Hm Hk. unfold py_mod. rewrite (Zfloor_eq k) by exact Hk. reflexivity. Qed.

Lemma nth_map_R (f : R -> R) (l : list R) (i : nat) :
  (i < length l)%nat -> nth i (map f l) 0 = f (nth i l 0).
Proof.
  intros Hi. rewrite nth_indep with (d' := f 0) by (rewrite length_map; exact Hi).
  apply map_nth.
Qed.

End AngleFacts.

(** Claim C6, refuted as stated: for the one-sample series [[400]] the
    normaliser returns [[40]], which is congruent to [400] but outside
    [[400 - 180, 400 + 180)]; the window is anchored at [400 % 360 = 40],
    not at the first sample itself. *)
Lemma norm_angle_not_first_value_window :
  TelescopePattern.norm_angle [400] = Normal [40] /\ ~ (400 - 180 <= 40 < 400 + 180).
Proof.
  split; [|lra].
  unfold TelescopePattern.norm_angle. cbv zeta. cbn [map].
  rewrite (AngleFacts.py_mod_eq 400 360 1) by (lra || (split; lra)).
  rewrite (AngleFacts.py_mod_eq (400 - (400 - 360 * 1 - 180)) 360 1) by (lra || (split; lra)).
  do 2 f_equal. ring.
Qed.

(** Claim C6 (amended): for every non-empty azimuth series [az0 :: rest],
    with [c = az0 % 360] (so [0 <= c < 360] and [c] congruent to [az0]),
    every output sample is congruent to the input sample modulo 360 and lies
    in [[c - 180, c + 180)]; the first output is [c] itself. The window is
    anchored once, by the first sample reduced modulo 360. *)
Theorem norm_angle_window (az0 : R) (rest : list R) :
  exists out,
    TelescopePattern.norm_angle (az0 :: rest) = Normal out /\
    length out = S (length rest) /\
    0 <= py_mod az0 360 < 360 /\
    (exists k, py_mod az0 360 = az0 + 360 * IZR k) /\
    nth 0 out 0 = py_mod az0 360 /\
    (forall i, (i < length out)%nat ->
       (exists k, nth i out 0 = nth i (az0 :: rest) 0 + 360 * IZR k) /\
       py_mod az0 360 - 180 <= nth i out 0 < py_mod az0 360 + 180).
Proof.
  set (c := py_mod az0 360). set (L := c - 180).
  exists (map (fun v => py_mod (v - L) 360 + L) (az0 :: rest)).
  split; [reflexivity|]. split; [rewrite length_map; reflexivity|].
  assert (Hc : 0 <= c < 360) by (apply AngleFacts.py_mod_bounds; lra).
  split; [exact Hc|]. split.
  { exists (- Zfloor (az0 / 360))%Z. apply AngleFacts.py_mod_congr. }
  split.
  - cbn [map nth]. unfold L.
    assert (Hc' : c = az0 - 360 * IZR (Zfloor (az0 / 360))) by reflexivity.
    rewrite (AngleFacts.py_mod_eq (az0 - (c - 180)) 360 (Zfloor (az0 / 360))).
    + rewrite Hc'. ring.
    + lra.
    + rewrite Hc'.
      replace ((az0 - (az0 - 360 * IZR (Zfloor (az0 / 360)) - 180)) / 360)
        with (IZR (Zfloor (az0 / 360)) + 1 / 2) by field.
      lra.
  - intros i Hi. rewrite length_map in Hi.
    rewrite AngleFacts.nth_map_R by exact Hi. split.
    + exists (- Zfloor ((nth i (az0 :: rest) 0%R - L) / 360))%Z.
      rewrite AngleFacts.py_mod_congr. ring.
    + pose proof (AngleFacts.py_mod_bounds (nth i (az0 :: rest) 0 - L) 360) as Hb.
      unfold L in *. lra.
Qed.

(** ** C7: the boresight/module transforms with a zero offset *)

Module TrigFacts.

(** Settle the real comparisons of a goal, dropping the impossible branches. *)
Ltac decide_R :=
  repeat match goal with
  | |- context [Rlt_dec ?a ?b] => destruct (Rlt_dec a b); try lra
  | |- context [Rle_dec ?a ?b] => destruct (Rle_dec a b); try lra
  end.

Lemma sin_period_Z (x : R) (k : Z) : sin (x + 2 * IZR k * PI) = sin x.
Proof.
  destruct (Z_le_gt_dec 0 k) as [Hk|Hk].
  - rewrite <- (Z2Nat.id k) by exact Hk. rewrite <- INR_IZR_INZ. apply sin_period.
  - pose proof (sin_period (x + 2 * IZR k * PI) (Z.to_nat (- k))) as H.
    rewrite INR_IZR_INZ, Z2Nat.id in H by lia. rewrite opp_IZR in H.
    replace (x + 2 * IZR k * PI + 2 * - IZR k * PI) with x in H by ring. congruence.
Qed.

Lemma cos_period_Z (x : R) (k : Z) : cos (x + 2 * IZR k * PI) = cos x.
Proof.
  rewrite <- !sin_shift. replace (PI / 2 - (x + 2 * IZR k * PI)) with
    ((PI / 2 - x) + 2 * IZR (- k) * PI) by (rewrite opp_IZR; ring).
  apply sin_period_Z.
Qed.

Lemma tan_shift_PI (b : R) : cos b <> 0 -> sin b / cos b = tan (b - PI).
Proof.
  intros Hc. unfold tan.
  assert (Hs : sin (b - PI) = - sin b).
  { pose proof (neg_sin (b - PI)) as H. replace (b - PI + PI) with b in H by ring. lra. }
  assert (Hc' : cos (b - PI) = - cos b).
  { pose proof (neg_cos (b - PI)) as H. replace (b - PI + PI) with b in H by ring. lra. }
  rewrite Hs, Hc'. field. exact Hc.
Qed.

Lemma tan_shift_PI' (b : R) : cos b <> 0 -> sin b / cos b = tan (b + PI).
Proof.
  intros Hc. unfold tan. rewrite neg_sin, neg_cos. field. exact Hc.
Qed.

(** On [[-PI, PI)], [atan2 (sin b) (cos b)] gives back [b], except at [-PI]
    where it gives [PI]. *)
Lemma atan2_sin_cos_reduced (b : R) :
  - PI <= b < PI ->
  TelescopePattern.atan2 (sin b) (cos b) = b \/
  (b = - PI /\ TelescopePattern.atan2 (sin b) (cos b) = PI).
Proof.
  intros Hb. pose proof PI_RGT_0 as HPI. unfold TelescopePattern.atan2.
  destruct (Rtotal_order b (- (PI / 2))) as [H1|[H1|H1]].
  - (* [-PI <= b < -PI/2] *)
    destruct (Req_dec b (- PI)) as [->|Hne].
    + right. split; [reflexivity|].
      rewrite sin_neg, cos_neg, sin_PI, cos_PI. decide_R.
      match goal with |- atan ?x + PI = PI => replace x with 0 by field end.
      rewrite atan_0. ring.
    + left.
      assert (Hc : cos b < 0) by (rewrite <- cos_neg; apply cos_lt_0; lra).
      assert (Hs : sin b < 0) by (apply sin_lt_0_var; lra).
      destruct (Rlt_dec 0 (cos b)) as [H|_]; [lra|].
      destruct (Rlt_dec (cos b) 0) as [_|H]; [|lra].
      destruct (Rle_dec 0 (sin b)) as [H|_]; [lra|].
      rewrite tan_shift_PI' by lra. rewrite atan_tan by lra. ring.
  - left. subst b. rewrite cos_neg, sin_neg, cos_PI2, sin_PI2. decide_R.
  - destruct (Rtotal_order b (PI / 2)) as [H2|[H2|H2]].
    + left. assert (Hc : 0 < cos b) by (apply cos_gt_0; lra).
      destruct (Rlt_dec 0 (cos b)) as [_|H]; [|lra].
      fold (tan b). apply atan_tan. lra.
    + left. subst b. rewrite cos_PI2, sin_PI2. decide_R.
    + left.
      assert (Hc : cos b < 0) by (apply cos_lt_0; lra).
      assert (Hs : 0 < sin b) by (apply sin_gt_0; lra).
      destruct (Rlt_dec 0 (cos b)) as [H|_]; [lra|].
      destruct (Rlt_dec (cos b) 0) as [_|H]; [|lra].
      destruct (Rle_dec 0 (sin b)) as [_|H]; [|lra].
      rewrite tan_shift_PI by lra. rewrite atan_tan by lra. ring.
Qed.

(** [np.arctan2(sin a, cos a)] is [a] up to a multiple of [2*PI]. *)
Lemma atan2_sin_cos (a : R) :
  exists k : Z, TelescopePattern.atan2 (sin a) (cos a) = a + 2 * IZR k * PI.
Proof.
  pose proof PI_RGT_0 as HPI.
  set (k0 := Zfloor ((a + PI) / (2 * PI))).
  set (b := a + 2 * IZR (- k0) * PI).
  assert (Hb : - PI <= b < PI).
  { unfold b. rewrite opp_IZR. destruct (Zfloor_bound ((a + PI) / (2 * PI))) as [Hlo Hhi].
    fold k0 in Hlo, Hhi.
    assert (Hx : a + PI = 2 * PI * ((a + PI) / (2 * PI))) by (field; lra).
    split.
    - apply Rmult_le_compat_l with (r := 2 * PI) in Hlo; lra.
    - apply Rmult_lt_compat_l with (r := 2 * PI) in Hhi; lra. }
  assert (Hsin : sin b = sin a) by apply sin_period_Z.
  assert (Hcos : cos b = cos a) by apply cos_period_Z.
  rewrite <- Hsin, <- Hcos.
  destruct (atan2_sin_cos_reduced b Hb) as [H|[Hbe H]].
  - exists (- k0)%Z. exact H.
  - exists (- k0 + 1)%Z. rewrite H. rewrite plus_IZR. unfold b in Hbe. lra.
Qed.

End TrigFacts.

Module TransformFacts.

Lemma radians0 : radians 0 = 0.
Proof. unfold radians. ring. Qed.

Lemma degrees_radians (x : R) : degrees (radians x) = x.
Proof. unfold degrees, radians. field. apply PI_neq0. Qed.

Lemma radians_range (x : R) : -90 < x < 90 -> - (PI / 2) < radians x < PI / 2.
Proof. intros Hx. pose proof PI_RGT_0. unfold radians. split; nra. Qed.

Lemma nth_map2 (f : R -> R -> R) (l1 l2 : list R) (i : nat) :
  length l1 = length l2 -> (i < length l1)%nat ->
  nth i (TelescopePattern.map2 f l1 l2) 0 = f (nth i l1 0) (nth i l2 0).
Proof.
  intros Hl Hi. unfold TelescopePattern.map2.
  rewrite nth_indep with (d' := (fun '(a, b) => f a b) (0, 0))
    by (rewrite length_map, length_combine; lia).
  rewrite (map_nth (fun '(a, b) => f a b) (combine l1 l2) (0, 0)), combine_nth by exact Hl.
  reflexivity.
Qed.

Lemma length_map2 (f : R -> R -> R) (l1 l2 : list R) :
  length l1 = length l2 -> length (TelescopePattern.map2 f l1 l2) = length l1.
Proof. intros Hl. unfold TelescopePattern.map2. rewrite length_map, length_combine. lia. Qed.

(** Lengths of element-wise [numpy] results. *)
Ltac solve_len :=
  repeat first [rewrite length_map | rewrite length_map2 by solve_len]; lia.

Lemma In_nth_R (a : R) (l : list R) : In a l -> exists i, (i < length l)%nat /\ nth i l 0 = a.
Proof. intros H. apply In_nth with (d := 0) in H. exact H. Qed.

(** [_norm_angle] keeps every sample modulo 360. *)
Lemma norm_angle_congr (l : list R) :
  l <> [] ->
  exists out, TelescopePattern.norm_angle l = Normal out /\ length out = length l /\
    forall i, (i < length l)%nat -> exists k, nth i out 0 = nth i l 0 + 360 * IZR k.
Proof.
  intros Hl. destruct l as [|a0 rest]; [congruence|].
  eexists. split; [reflexivity|]. split; [apply length_map|].
  intros i Hi. rewrite AngleFacts.nth_map_R by exact Hi.
  exists (- Zfloor ((nth i (a0 :: rest) 0%R - (py_mod a0 360 - 180)) / 360))%Z.
  rewrite AngleFacts.py_mod_congr. ring.
Qed.

Lemma map_combine_diag (F : R * (R * R) -> R) (G : R -> R) (A Zs : list R) :
  length A = length Zs -> (forall a z, In a A -> F (a, (z, a)) = G z) ->
  map F (combine A (combine Zs A)) = map G Zs.
Proof.
  revert Zs; induction A as [|a A IH]; intros [|z Zs] Hl HF; cbn in Hl; try lia; [reflexivity|].
  cbn [combine map]. rewrite (HF a z) by (left; reflexivity).
  f_equal. apply IH; [lia|]. intros a' z' Ha'. apply HF. right. exact Ha'.
Qed.

(** Forward transform with a zero offset. *)
Lemma from_boresight_zero (az alt : list R) :
  length az = length alt -> az <> [] ->
  (forall i, (i < length alt)%nat -> -90 < nth i alt 0 < 90) ->
  exists az_out alt_out,
    TelescopePattern.transform_from_boresight az alt 0 0 = Normal (az_out, alt_out) /\
    length az_out = length az /\ length alt_out = length alt /\
    (forall i, (i < length alt)%nat -> nth i alt_out 0 = py_mod (nth i alt 0) 360) /\
    (forall i, (i < length az)%nat -> exists k, nth i az_out 0 = nth i az 0 + 360 * IZR k).
Proof.
  intros Hl Hne Halt. pose proof PI_RGT_0 as HPI.
  assert (HA : forall a, In a (map radians alt) -> - (PI / 2) < a < PI / 2).
  { intros a Ha. apply in_map_iff in Ha. destruct Ha as [x [<- Hx]].
    apply In_nth_R in Hx. destruct Hx as [i [Hi <-]]. apply radians_range, Halt, Hi. }
  unfold TelescopePattern.transform_from_boresight. cbv zeta.
  rewrite radians0, sin_0, cos_0.
  rewrite (map_ext_in (fun a0 => asin (sin a0 * 1 + 0 * cos a0 * sin (0 + a0))) (fun a => a)
             (map radians alt)).
  2:{ intros a Ha. replace (sin a * 1 + 0 * cos a * sin (0 + a)) with (sin a) by ring.
      apply asin_sin. specialize (HA a Ha). lra. }
  rewrite map_id.
  rewrite (map_combine_diag _ (fun z => TelescopePattern.atan2 (sin z) (cos z))).
  2:{ rewrite !length_map. symmetry. exact Hl. }
  2:{ intros a z Ha. cbn beta iota.
      assert (Hc : 0 < cos a) by (apply cos_gt_0; apply HA in Ha; lra).
      f_equal; field; lra. }
  destruct (norm_angle_congr
    (map degrees (map (fun z => TelescopePattern.atan2 (sin z) (cos z)) (map radians az))))
    as [out [Hout [Hlen Hk]]].
  { destruct az; [congruence | discriminate]. }
  rewrite Hout. cbn [bind].
  exists out, (map (fun a => py_mod (degrees a) 360) (map radians alt)).
  split; [reflexivity|]. rewrite !length_map in Hlen. split; [exact Hlen|].
  split; [rewrite !length_map; reflexivity|]. split.
  - intros i Hi. rewrite AngleFacts.nth_map_R by (rewrite length_map; exact Hi).
    rewrite AngleFacts.nth_map_R by exact Hi. rewrite degrees_radians. reflexivity.
  - intros i Hi. destruct (Hk i) as [k1 Hk1]; [rewrite !length_map; exact Hi|].
    rewrite Hk1.
    rewrite AngleFacts.nth_map_R by (rewrite !length_map; exact Hi).
    rewrite AngleFacts.nth_map_R by (rewrite length_map; exact Hi).
    rewrite AngleFacts.nth_map_R by exact Hi.
    destruct (TrigFacts.atan2_sin_cos (radians (nth i az 0))) as [k2 Hk2].
    rewrite Hk2. exists (k2 + k1)%Z. rewrite plus_IZR. unfold degrees, radians.
    field. apply PI_neq0.
Qed.

(** With a zero offset the bracket [[-pi/2, pi/2]] always holds a sign
    change: [brentq] never raises. *)
Lemma brentq_zero (solver : (R -> R) -> R -> R) (a1 g : R) :
  TelescopePattern.brentq solver (fun a => TelescopePattern.func (radians 0) (radians 0) a a1) g
  = Normal (solver (fun a => TelescopePattern.func (radians 0) (radians 0) a a1) g).
Proof.
  unfold TelescopePattern.brentq.
  destruct (Rgt_dec _ 0) as [H|_]; [exfalso|reflexivity].
  unfold TelescopePattern.func in H. rewrite radians0, sin_0, cos_0 in H.
  rewrite sin_neg, sin_PI2 in H. pose proof (SIN_bound a1). nra.
Qed.

Lemma to_boresight_loop_zero (solver : (R -> R) -> R -> R) (alts : list R) :
  forall i l a0 guess, (i + length alts = length l)%nat ->
  exists l',
    TelescopePattern.to_boresight_loop solver (radians 0) (radians 0) alts i
      (TelescopePattern.Arr l) a0 guess = Normal (TelescopePattern.Arr l') /\
    length l' = length l /\
    (forall j, (j < i)%nat -> nth j l' 0 = nth j l 0) /\
    (forall j, (j < length alts)%nat -> exists g,
       nth (i + j) l' 0 = solver (fun a => TelescopePattern.func (radians 0) (radians 0) a (nth j alts 0)) g).
Proof.
  induction alts as [|a1 rest IH]; intros i l a0 guess Hlen.
  - exists l. split; [reflexivity|]. split; [reflexivity|]. split; [intros; reflexivity|].
    intros j Hj. cbn [length] in Hj. lia.
  - cbn [TelescopePattern.to_boresight_loop]. rewrite brentq_zero.
    set (v := solver (fun a => TelescopePattern.func (radians 0) (radians 0) a a1) guess).
    cbn [length] in Hlen.
    destruct (IH (S i) (list_set l i v) (Some v) v) as [l'' [Hrun [Hl'' [Hlt Hsol]]]];
      [rewrite list_set_length; lia|].
    exists l''. split; [exact Hrun|]. split; [rewrite Hl'', list_set_length; reflexivity|].
    split.
    + intros j Hj. rewrite Hlt by lia. apply list_set_nth_other. lia.
    + intros [|j] Hj.
      * exists guess. rewrite Nat.add_0_r, Hlt by lia. apply list_set_nth_same. lia.
      * cbn [length] in Hj. destruct (Hsol j) as [g Hg]; [lia|].
        exists g. replace (i + S j)%nat with (S i + j)%nat by lia. exact Hg.
Qed.

Lemma cos_diff_ge_1 (a0 a1 : R) :
  0 < cos a0 -> 0 < cos a1 -> 1 <= (1 - sin a0 * sin a1) / (cos a0 * cos a1).
Proof.
  intros H0 H1. pose proof (COS_bound (a0 - a1)) as Hb. rewrite cos_minus in Hb.
  replace ((1 - sin a0 * sin a1) / (cos a0 * cos a1))
    with (1 + (1 - (cos a0 * cos a1 + sin a0 * sin a1)) / (cos a0 * cos a1)) by (field; lra).
  assert (0 <= (1 - (cos a0 * cos a1 + sin a0 * sin a1)) / (cos a0 * cos a1)).
  { unfold Rdiv. apply Rmult_le_pos; [lra|]. left. apply Rinv_0_lt_compat. nra. }
  lra.
Qed.

(** Inverse transform with a zero offset, for a solver whose roots stay
    strictly inside the bracket. *)
Lemma to_boresight_zero (solver : (R -> R) -> R -> R) (az alt : list R) :
  length az = length alt -> alt <> [] ->
  (forall i, (i < length alt)%nat -> -90 < nth i alt 0 < 90) ->
  (forall f g, - (PI / 2) < solver f g < PI / 2) ->
  exists az_out alt_out,
    TelescopePattern.transform_to_boresight solver az alt 0 0 = Normal (az_out, alt_out) /\
    TelescopePattern.norm_angle az = Normal az_out /\
    length alt_out = length alt /\
    (forall i, (i < length alt)%nat -> exists g,
       nth i alt_out 0 = py_mod (degrees (solver (fun a =>
         TelescopePattern.func (radians 0) (radians 0) a (radians (nth i alt 0))) g)) 360).
Proof.
  intros Hl Hne Halt Hsolver. pose proof PI_RGT_0 as HPI.
  unfold TelescopePattern.transform_to_boresight. cbv zeta.
  destruct (to_boresight_loop_zero solver (map radians alt) 0 (repeat 0 (length (map radians alt)))
              None (hd 0 (map radians alt))) as [l' [Hrun [Hlen' [_ Hsol]]]].
  { rewrite repeat_length. reflexivity. }
  rewrite repeat_length in Hlen'. rewrite length_map in Hlen'.
  destruct (map radians alt) as [|g0 l0] eqn:EA.
  { destruct alt; [congruence | discriminate]. }
  cbn [hd] in Hrun. rewrite Hrun. cbn [bind]. rewrite <- EA. rewrite <- EA in Hsol.
  set (A := map radians alt) in *.
  assert (HlA : length A = length alt) by apply length_map.
  assert (HA : forall i, (i < length alt)%nat -> nth i A 0 = radians (nth i alt 0))
    by (intros i Hi; apply AngleFacts.nth_map_R; exact Hi).
  assert (Hdiff : forall i, (i < length alt)%nat ->
    acos (TelescopePattern.clip1 ((cos (radians 0) - sin (nth i l' 0) * sin (nth i A 0))
                                  / (cos (nth i l' 0) * cos (nth i A 0)))) = 0).
  { intros i Hi. rewrite radians0, cos_0, HA by exact Hi.
    assert (Hc0 : 0 < cos (nth i l' 0)).
    { destruct (Hsol i) as [g Hg]; [lia|].
      rewrite Nat.add_0_l in Hg. rewrite Hg. apply cos_gt_0; apply Hsolver. }
    assert (Hc1 : 0 < cos (radians (nth i alt 0)))
      by (apply cos_gt_0; apply radians_range, Halt, Hi).
    pose proof (cos_diff_ge_1 _ _ Hc0 Hc1) as Hge.
    unfold TelescopePattern.clip1.
    destruct (Rgt_dec _ 1); [apply acos_1|].
    destruct (Rlt_dec _ (-1)); [lra|].
    replace ((1 - sin (nth i l' 0) * sin (radians (nth i alt 0)))
             / (cos (nth i l' 0) * cos (radians (nth i alt 0)))) with 1 by lra.
    apply acos_1. }
  set (D := TelescopePattern.map2 _ (map _ (TelescopePattern.map2 _ l' A)) l').
  assert (HD : forall i, (i < length alt)%nat -> nth i D 0 = 0).
  { intros i Hi. unfold D.
    rewrite nth_map2 by (rewrite ?length_map, ?length_map2; lia).
    rewrite AngleFacts.nth_map_R by (rewrite length_map2; lia).
    rewrite nth_map2 by lia.
    rewrite (Hdiff i Hi).
    destruct (Rgt_dec _ _); [destruct (Rlt_dec _ _); [apply Ropp_0|]|]; reflexivity. }
  assert (HlD : length D = length alt) by (unfold D; solve_len).
  assert (Haz0 : TelescopePattern.map2 (fun a d => a - d) (map radians az) D = map radians az).
  { apply nth_ext with (d := 0) (d' := 0).
    - solve_len.
    - intros i Hi. rewrite length_map2 in Hi by solve_len.
      rewrite length_map in Hi.
      rewrite nth_map2 by (rewrite length_map; lia).
      rewrite HD by lia. ring. }
  rewrite Haz0, map_map.
  rewrite (map_ext (fun x0 => degrees (radians x0)) (fun x0 => x0)) by apply degrees_radians.
  rewrite map_id.
  destruct (norm_angle_congr az) as [out [Hout _]].
  { destruct az; [destruct alt; [congruence | cbn in Hl; lia] | discriminate]. }
  rewrite Hout. cbn [bind].
  eexists out, _. split; [reflexivity|]. split; [reflexivity|].
  split; [rewrite length_map; lia|].
  intros i Hi. rewrite AngleFacts.nth_map_R by lia.
  destruct (Hsol i) as [g Hg]; [lia|].
  rewrite Nat.add_0_l in Hg. exists g. rewrite Hg, HA by exact Hi.
  reflexivity.
Qed.

(** The bracketed root of the zero-offset [func] is the input altitude. *)
Lemma func_zero_root (a a1 : R) :
  - (PI / 2) <= a <= PI / 2 -> - (PI / 2) <= a1 <= PI / 2 ->
  (TelescopePattern.func (radians 0) (radians 0) a a1 = 0 <-> a = a1).
Proof.
  intros Ha Ha1. unfold TelescopePattern.func. rewrite radians0, sin_0, cos_0.
  split.
  - intros H. apply sin_inj; [exact Ha | exact Ha1 | lra].
  - intros ->. ring.
Qed.

End TransformFacts.

(** Claim C7, refuted as stated: with [dist = 0] and [theta = 0] the
    forward transform maps the altitude [-10] to [350], not to [-10], since
    the result goes through [% 360]. *)
Lemma transform_zero_offset_not_identity :
  exists az_out,
    TelescopePattern.transform_from_boresight [0] [-10] 0 0 = Normal (az_out, [350]) /\
    350 <> -10.
Proof.
  destruct (TransformFacts.from_boresight_zero [0] [-10]) as [az_out [alt_out [H [_ [Hla [Halt _]]]]]].
  - reflexivity.
  - discriminate.
  - intros [|i] Hi; cbn in Hi; [cbn [nth]; lra | lia].
  - exists az_out. split; [|lra].
    destruct alt_out as [|a [|b t]]; cbn in Hla; try lia.
    rewrite H. do 3 f_equal.
    specialize (Halt 0%nat ltac:(cbn; lia)). cbn [nth] in Halt. rewrite Halt.
    rewrite (AngleFacts.py_mod_eq (-10) 360 (-1)) by (lra || (split; lra)). lra.
Qed.

(** Claim C7 (amended): for [dist = 0], [theta = 0] and altitudes strictly
    between [-90] and [90] degrees, the forward transform returns each
    altitude reduced modulo 360 (equal to the input only when it is
    non-negative) and azimuths congruent to the input modulo 360; the
    inverse transform raises no bracket error, its azimuth offset is exactly
    [0] (the output azimuth is the normalised input, [_norm_angle(az)]) and
    its altitude is the solver's root, in degrees, reduced modulo 360, where
    the only root in the bracket is the input altitude. Roots returned by
    the solver are assumed strictly inside the bracket. *)
Theorem transforms_zero_offset (solver : (R -> R) -> R -> R) (az alt : list R) :
  length az = length alt -> alt <> [] ->
  (forall i, (i < length alt)%nat -> -90 < nth i alt 0 < 90) ->
  (forall f g, - (PI / 2) < solver f g < PI / 2) ->
  (exists az_out alt_out,
     TelescopePattern.transform_from_boresight az alt 0 0 = Normal (az_out, alt_out) /\
     length az_out = length az /\ length alt_out = length alt /\
     (forall i, (i < length alt)%nat -> nth i alt_out 0 = py_mod (nth i alt 0) 360) /\
     (forall i, (i < length az)%nat -> exists k, nth i az_out 0 = nth i az 0 + 360 * IZR k)) /\
  (exists az_out alt_out,
     TelescopePattern.transform_to_boresight solver az alt 0 0 = Normal (az_out, alt_out) /\
     TelescopePattern.norm_angle az = Normal az_out /\
     length alt_out = length alt /\
     (forall i, (i < length alt)%nat -> exists g,
        nth i alt_out 0 = py_mod (degrees (solver (fun a =>
          TelescopePattern.func (radians 0) (radians 0) a (radians (nth i alt 0))) g)) 360) /\
     (forall i a, (i < length alt)%nat -> - (PI / 2) <= a <= PI / 2 ->
        (TelescopePattern.func (radians 0) (radians 0) a (radians (nth i alt 0)) = 0 <->
         a = radians (nth i alt 0)))).
Proof.
  intros Hl Hne Halt Hsolver. split.
  - apply TransformFacts.from_boresight_zero; [exact Hl | | exact Halt].
    destruct az; [destruct alt; [congruence | cbn in Hl; lia] | discriminate].
  - destruct (TransformFacts.to_boresight_zero solver az alt Hl Hne Halt Hsolver)
      as [az_out [alt_out [H1 [H2 [H3 H4]]]]].
    exists az_out, alt_out. split; [exact H1|]. split; [exact H2|]. split; [exact H3|].
    split; [exact H4|].
    intros i a Hi Ha. apply TransformFacts.func_zero_root; [exact Ha|].
    pose proof (TransformFacts.radians_range _ (Halt i Hi)). lra.
Qed.

(** The theorem at one sample, with a solver that always answers [0]. *)
Lemma transforms_zero_offset_witness :
  (exists az_out alt_out,
     TelescopePattern.transform_from_boresight [30] [45] 0 0 = Normal (az_out, alt_out) /\
     length az_out = 1%nat /\ length alt_out = 1%nat /\
     (forall i, (i < 1)%nat -> nth i alt_out 0 = py_mod (nth i [45] 0) 360) /\
     (forall i, (i < 1)%nat -> exists k, nth i az_out 0 = nth i [30] 0 + 360 * IZR k)) /\
  (exists az_out alt_out,
     TelescopePattern.transform_to_boresight (fun (_ : R -> R) (_ : R) => 0) [30] [45] 0 0 = Normal (az_out, alt_out) /\
     TelescopePattern.norm_angle [30] = Normal az_out /\
     length alt_out = 1%nat /\
     (forall i, (i < 1)%nat -> exists g,
        nth i alt_out 0 = py_mod (degrees ((fun (_ : R -> R) (_ : R) => 0) (fun a =>
          TelescopePattern.func (radians 0) (radians 0) a (radians (nth i [45] 0))) g)) 360) /\
     (forall i a, (i < 1)%nat -> - (PI / 2) <= a <= PI / 2 ->
        (TelescopePattern.func (radians 0) (radians 0) a (radians (nth i [45] 0)) = 0 <->
         a = radians (nth i [45] 0)))).
Proof.
  apply (transforms_zero_offset (fun (_ : R -> R) (_ : R) => 0) [30] [45]).
  - reflexivity.
  - discriminate.
  - intros [|i] Hi; cbn in Hi; [cbn [nth]; lra | lia].
  - intros _ _. pose proof PI_RGT_0. lra.
Defined.

(** ** C2: a failed bracket in the module-to-boresight transform *)

(** Claim C2 (code defect): for the module offset [dist = 1] deg,
    [theta = 0] and the altitudes [[0; 90]], the first sample has a root in
    the bracket, the second has none ([brentq] raises [ValueError]); the
    [except] branch then rebinds the whole array [alt0] to [math.nan], and
    the next statement [alt0[i] = a0] raises [TypeError], so the batch is
    aborted instead of marking the second sample only. This holds for every
    solver. *)
Theorem to_boresight_failed_bracket_aborts (solver : (R -> R) -> R -> R) :
  TelescopePattern.brentq solver
    (fun a => TelescopePattern.func (radians 1) (radians 0) a (radians 0)) (radians 0)
    = Normal (solver (fun a => TelescopePattern.func (radians 1) (radians 0) a (radians 0)) (radians 0)) /\
  (forall g, TelescopePattern.brentq solver
     (fun a => TelescopePattern.func (radians 1) (radians 0) a (radians 90)) g = Throw ValueError) /\
  TelescopePattern.transform_to_boresight solver [0; 0] [0; 90] 1 0 = Throw TypeError.
Proof.
  pose proof PI_RGT_0 as HPI.
  assert (Hd : 0 < sin (radians 1)) by (apply sin_gt_0; unfold radians; nra).
  assert (Hc : cos (radians 1) <> 0).
  { apply Rgt_not_eq, cos_gt_0; unfold radians; nra. }
  assert (B0 : TelescopePattern.brentq solver
    (fun a => TelescopePattern.func (radians 1) (radians 0) a (radians 0)) (radians 0)
    = Normal (solver (fun a => TelescopePattern.func (radians 1) (radians 0) a (radians 0)) (radians 0))).
  { unfold TelescopePattern.brentq. destruct (Rgt_dec _ 0) as [H|_]; [exfalso|reflexivity].
    unfold TelescopePattern.func in H.
    rewrite TransformFacts.radians0, sin_0, cos_neg, sin_neg, cos_PI2, sin_PI2 in H. nra. }
  assert (B1 : forall g, TelescopePattern.brentq solver
     (fun a => TelescopePattern.func (radians 1) (radians 0) a (radians 90)) g = Throw ValueError).
  { intros g. unfold TelescopePattern.brentq. destruct (Rgt_dec _ 0) as [_|H]; [reflexivity|].
    exfalso. apply H. unfold TelescopePattern.func.
    replace (radians 90) with (PI / 2) by (unfold radians; field).
    rewrite cos_neg, sin_neg, cos_PI2, sin_PI2.
    pose proof (sin2_cos2 (radians 1)) as Hsc. unfold Rsqr in Hsc. nra. }
  split; [exact B0|]. split; [exact B1|].
  unfold TelescopePattern.transform_to_boresight. cbv zeta. cbn [map].
  cbn [TelescopePattern.to_boresight_loop]. rewrite B0.
  cbn [TelescopePattern.to_boresight_loop]. rewrite B1. reflexivity.
Qed.

(** ** C3: the start-time basis of a TelescopePattern *)




(* ================================================================== *)
(** * Further properties of the code *)

(* ------------------------------------------------------------------ *)
(** ** [_central_diff] *)

Module DiffFacts.

Lemma repeat_snoc {A : Type} (x : A) (n : nat) : repeat x n ++ [x] = repeat x (S n).
Proof. induction n as [|n IH]; cbn [repeat app]; [reflexivity|]. rewrite IH. reflexivity. Qed.

End DiffFacts.

(** When it returns, [_central_diff] gives one value per sample. *)
Theorem central_diff_length (h : R) (a d : list R) :
  ScanPattern.central_diff h a = Normal d -> length d = length a.
Proof.
  destruct a as [|a0 [|a1 a']]; cbn [ScanPattern.central_diff]; intros H; try discriminate.
  injection H as <-. cbn [length]. rewrite length_app, length_map, length_seq. cbn [length]. lia.
Qed.

Lemma central_diff_length_witness :
  exists d, ScanPattern.central_diff 1 [0; 1; 3] = Normal d /\ length d = length [0; 1; 3].
Proof.
  eexists. split; [reflexivity|]. apply (central_diff_length 1 [0; 1; 3]). reflexivity.
Defined.

(** On samples of a linear function [c + v*i] (at least two of them) every
    value of [_central_diff] is the exact slope [v/h]. *)
Theorem central_diff_linear (h c v : R) (n : nat) :
  h <> 0 -> (2 <= n)%nat ->
  ScanPattern.central_diff h (map (fun i => c + v * INR i) (seq 0 n)) = Normal (repeat (v / h) n).
Proof.
  intros Hh Hn.
  set (g := fun i => c + v * INR i).
  assert (Hnth : forall i, (i < n)%nat -> nth i (map g (seq 0 n)) 0 = g i)
    by (intros i Hi; apply RepeatFacts.nth_map_seq; exact Hi).
  destruct n as [|[|m]]; [lia|lia|].
  remember (map g (seq 0 (S (S m)))) as a eqn:Ea.
  assert (Hlen : length a = S (S m)) by (subst a; rewrite length_map, length_seq; reflexivity).
  assert (Hs : a = g 0%nat :: g 1%nat :: map g (seq 2 m)) by (subst a; reflexivity).
  unfold ScanPattern.central_diff. rewrite Hs at 1. rewrite Hlen.
  replace (S (S m) - 2)%nat with m by lia.
  replace (S (S m) - 1)%nat with (S m) by lia.
  replace (S (S m) - 2)%nat with m by lia.
  rewrite (Hnth (S m)) by lia. rewrite (Hnth m) by lia.
  rewrite (map_ext_in _ (fun _ => v / h)).
  2:{ intros i Hi. apply in_seq in Hi.
      rewrite (Hnth (i + 1)%nat) by lia. rewrite (Hnth (i - 1)%nat) by lia.
      unfold g. rewrite plus_INR, minus_INR by lia. cbn [INR]. field. exact Hh. }
  rewrite map_const, length_seq.
  unfold g.
  replace ((c + v * INR 1 - (c + v * INR 0)) / h) with (v / h) by (cbn [INR]; field; exact Hh).
  replace ((c + v * INR (S m) - (c + v * INR m)) / h) with (v / h) by (rewrite S_INR; field; exact Hh).
  rewrite <- app_assoc, DiffFacts.repeat_snoc. reflexivity.
Qed.

Lemma central_diff_linear_witness :
  (1 <> 0 /\ (2 <= 3)%nat) /\
  ScanPattern.central_diff 1 (map (fun i => 5 + 2 * INR i) (seq 0 3)) = Normal (repeat (2 / 1) 3).
Proof.
  split; [split; [lra | lia]|]. apply central_diff_linear; [lra | lia].
Defined.

(* ------------------------------------------------------------------ *)
(** ** The sample interval check of [__init__] *)

Module IntervalFacts.

Lemma np_diff_length (l : list R) : length (SkyPattern.np_diff l) = (length l - 1)%nat.
Proof.
  induction l as [|a l IH]; [reflexivity|]. destruct l as [|b l]; [reflexivity|].
  change (SkyPattern.np_diff (a :: b :: l)) with ((b - a) :: SkyPattern.np_diff (b :: l)).
  cbn [length] in *. rewrite IH. lia.
Qed.

Lemma np_sum_diff (l : list R) :
  l <> [] -> SkyPattern.np_sum (SkyPattern.np_diff l) = nth (length l - 1) l 0 - nth 0 l 0.
Proof.
  induction l as [|a l IH]; intros Hl; [congruence|]. destruct l as [|b l].
  - cbn. ring.
  - change (SkyPattern.np_diff (a :: b :: l)) with ((b - a) :: SkyPattern.np_diff (b :: l)).
    unfold SkyPattern.np_sum in *. cbn [fold_right]. rewrite IH by discriminate.
    cbn [length]. replace (S (S (length l)) - 1)%nat with (S (length l)) by lia.
    replace (S (length l) - 1)%nat with (length l) by lia. cbn [nth]. ring.
Qed.

Lemma np_mean_diff (l : list R) :
  (2 <= length l)%nat ->
  SkyPattern.np_mean (SkyPattern.np_diff l) = (nth (length l - 1) l 0 - nth 0 l 0) / INR (length l - 1).
Proof.
  intros Hl. unfold SkyPattern.np_mean. rewrite np_diff_length, np_sum_diff; [reflexivity|].
  destruct l; cbn [length] in Hl; [lia|discriminate].
Qed.

Lemma np_diff_short (l : list R) : (length l < 2)%nat -> SkyPattern.np_diff l = [].
Proof. destruct l as [|a [|b l]]; cbn [length]; intros H; [reflexivity|reflexivity|lia]. Qed.

Lemma np_std_nonneg (l : list R) : 0 <= SkyPattern.np_std l.
Proof. unfold SkyPattern.np_std. apply sqrt_pos. Qed.

(** Once there are two rows, the check compares the relative spread with
    the mean step [(t_last - t_0)/(n-1)]. *)
Lemma sample_interval_of_spec (t : list R) :
  (2 <= length t)%nat ->
  SkyPattern.sample_interval_of t =
  let m := (nth (length t - 1) t 0 - nth 0 t 0) / INR (length t - 1) in
  if Req_EM_T m 0 then Throw ValueError
  else if Rle_dec (SkyPattern.np_std (SkyPattern.np_diff t) / m) (1 / 100) then Normal m
  else Throw ValueError.
Proof.
  intros Ht. unfold SkyPattern.sample_interval_of.
  destruct t as [|a [|b t']]; cbn [length] in Ht; try lia.
  change (SkyPattern.np_diff (a :: b :: t')) with ((b - a) :: SkyPattern.np_diff (b :: t')) at 1.
  cbv beta iota zeta.
  change ((b - a) :: SkyPattern.np_diff (b :: t')) with (SkyPattern.np_diff (a :: b :: t')).
  rewrite np_mean_diff by (cbn [length]; lia). reflexivity.
Qed.

Lemma np_diff_map_seq (f : nat -> R) (s n : nat) :
  SkyPattern.np_diff (map f (seq s n)) = map (fun i => f (S i) - f i) (seq s (n - 1)).
Proof.
  revert s; induction n as [|n IH]; intros s; [reflexivity|].
  destruct n as [|n]; [reflexivity|].
  change (map f (seq s (S (S n)))) with (f s :: f (S s) :: map f (seq (S (S s)) n)).
  change (SkyPattern.np_diff (f s :: f (S s) :: map f (seq (S (S s)) n)))
    with ((f (S s) - f s) :: SkyPattern.np_diff (f (S s) :: map f (seq (S (S s)) n))).
  change (f (S s) :: map f (seq (S (S s)) n)) with (map f (seq (S s) (S n))).
  rewrite IH. replace (S (S n) - 1)%nat with (S n) by lia. replace (S n - 1)%nat with n by lia.
  reflexivity.
Qed.

Lemma np_sum_zeros {A : Type} (l : list A) : SkyPattern.np_sum (map (fun _ => 0) l) = 0.
Proof. induction l as [|a l IH]; cbn [map]; unfold SkyPattern.np_sum in *; cbn [fold_right]; lra. Qed.

(** Evenly spaced time offsets with a nonzero step [d] give [d]. *)
Lemma sample_interval_of_uniform (t0 d : R) (n : nat) :
  d <> 0 -> (2 <= n)%nat ->
  SkyPattern.sample_interval_of (map (fun i => t0 + INR i * d) (seq 0 n)) = Normal d.
Proof.
  intros Hd Hn.
  set (f := fun i => t0 + INR i * d).
  assert (Hlen : length (map f (seq 0 n)) = n) by (rewrite length_map, length_seq; reflexivity).
  assert (Hn1 : INR (n - 1) <> 0) by (apply not_0_INR; lia).
  assert (Hm : (nth (length (map f (seq 0 n)) - 1) (map f (seq 0 n)) 0 - nth 0 (map f (seq 0 n)) 0)
               / INR (length (map f (seq 0 n)) - 1) = d).
  { rewrite Hlen, !RepeatFacts.nth_map_seq by lia. unfold f. cbn [INR]. field. exact Hn1. }
  rewrite sample_interval_of_spec by lia. cbv zeta. rewrite Hm.
  destruct (Req_EM_T d 0) as [H|_]; [contradiction|].
  assert (Hdiff : SkyPattern.np_diff (map f (seq 0 n)) = map (fun _ => d) (seq 0 (n - 1))).
  { rewrite np_diff_map_seq. apply map_ext. intros i. unfold f. rewrite S_INR. ring. }
  assert (Hstd : SkyPattern.np_std (SkyPattern.np_diff (map f (seq 0 n))) = 0).
  { unfold SkyPattern.np_std.
    replace (SkyPattern.np_mean (SkyPattern.np_diff (map f (seq 0 n)))) with d.
    2:{ rewrite np_mean_diff by lia. symmetry. exact Hm. }
    rewrite Hdiff, map_map.
    rewrite (map_ext (fun x : nat => (d - d) ^ 2) (fun _ => 0)) by (intros; ring).
    unfold SkyPattern.np_mean. rewrite np_sum_zeros. unfold Rdiv. rewrite Rmult_0_l. apply sqrt_0. }
  rewrite Hstd. replace (0 / d) with 0 by (field; exact Hd).
  destruct (Rle_dec 0 (1 / 100)) as [_|H]; [reflexivity | lra].
Qed.

End IntervalFacts.

(** A time column with fewer than two rows, or whose last time offset
    equals its first (zero mean step), is refused with [ValueError]. *)
Theorem sample_interval_refused (t : list R) :
  (length t < 2)%nat \/ ((2 <= length t)%nat /\ nth (length t - 1) t 0 = nth 0 t 0) ->
  SkyPattern.sample_interval_of t = Throw ValueError.
Proof.
  intros [Hs | [Hl He]].
  - unfold SkyPattern.sample_interval_of. rewrite IntervalFacts.np_diff_short by exact Hs. reflexivity.
  - rewrite IntervalFacts.sample_interval_of_spec by exact Hl. cbv zeta.
    rewrite He. replace ((nth 0 t 0 - nth 0 t 0) / INR (length t - 1)) with 0 by (unfold Rdiv; ring).
    destruct (Req_EM_T 0 0) as [_|H]; [reflexivity | congruence].
Qed.

Lemma sample_interval_refused_witness :
  ((length [3] < 2)%nat \/ ((2 <= length [3])%nat /\ nth (length [3] - 1) [3] 0 = nth 0 [3] 0)) /\
  SkyPattern.sample_interval_of [3] = Throw ValueError.
Proof.
  split; [left; cbn; lia|]. apply sample_interval_refused. left. cbn. lia.
Defined.

(** Evenly spaced time offsets [t0 + i*d] (at least two, [d <> 0]) pass
    the check, and the detected sample interval is the step [d]. *)
Theorem sample_interval_uniform (t0 d : R) (n : nat) :
  d <> 0 -> (2 <= n)%nat ->
  SkyPattern.sample_interval_of (map (fun i => t0 + INR i * d) (seq 0 n)) = Normal d.
Proof. apply IntervalFacts.sample_interval_of_uniform. Qed.

Lemma sample_interval_uniform_witness :
  ((1 / 10 <> 0) /\ (2 <= 4)%nat) /\
  SkyPattern.sample_interval_of (map (fun i => 0 + INR i * (1 / 10)) (seq 0 4)) = Normal (1 / 10).
Proof.
  split; [split; [lra | lia]|]. apply sample_interval_uniform; [lra | lia].
Defined.

(** An accepted sample interval is always the mean step
    [(t_last - t_0)/(n - 1)] of the time column. *)
Theorem sample_interval_mean_step (t : list R) (si : R) :
  SkyPattern.sample_interval_of t = Normal si ->
  si = (nth (length t - 1) t 0 - nth 0 t 0) / INR (length t - 1).
Proof.
  intros H. destruct (Nat.lt_ge_cases (length t) 2) as [Hs|Hl].
  - unfold SkyPattern.sample_interval_of in H. rewrite IntervalFacts.np_diff_short in H by exact Hs.
    discriminate.
  - rewrite IntervalFacts.sample_interval_of_spec in H by exact Hl. cbv zeta in H.
    destruct (Req_EM_T _ 0); [discriminate|].
    destruct (Rle_dec _ _); [|discriminate]. injection H as <-. reflexivity.
Qed.

Lemma sample_interval_mean_step_witness :
  SkyPattern.sample_interval_of (map (fun i => 0 + INR i * (1 / 10)) (seq 0 4)) = Normal (1 / 10) /\
  1 / 10 = (nth (length (map (fun i => 0 + INR i * (1 / 10)) (seq 0 4)) - 1)
              (map (fun i => 0 + INR i * (1 / 10)) (seq 0 4)) 0
            - nth 0 (map (fun i => 0 + INR i * (1 / 10)) (seq 0 4)) 0)
           / INR (length (map (fun i => 0 + INR i * (1 / 10)) (seq 0 4)) - 1).
Proof.
  assert (H : SkyPattern.sample_interval_of (map (fun i => 0 + INR i * (1 / 10)) (seq 0 4))
              = Normal (1 / 10)) by (apply IntervalFacts.sample_interval_of_uniform; [lra | lia]).
  split; [exact H|]. apply sample_interval_mean_step. exact H.
Defined.

(** The check never refuses a time column whose last offset is before its
    first: whatever the spacing, it is accepted with the negative mean step
    as sample interval (a negative spread ratio is always [<= 0.01]). *)
Theorem sample_interval_decreasing_accepted (t : list R) :
  (2 <= length t)%nat -> nth (length t - 1) t 0 < nth 0 t 0 ->
  SkyPattern.sample_interval_of t = Normal ((nth (length t - 1) t 0 - nth 0 t 0) / INR (length t - 1)).
Proof.
  intros Hl Hlt. rewrite IntervalFacts.sample_interval_of_spec by exact Hl. cbv zeta.
  assert (Hn : 0 < INR (length t - 1)) by (apply lt_0_INR; lia).
  assert (Hm : (nth (length t - 1) t 0 - nth 0 t 0) / INR (length t - 1) < 0).
  { unfold Rdiv. apply Rmult_neg_pos; [lra | apply Rinv_0_lt_compat; exact Hn]. }
  destruct (Req_EM_T _ 0) as [H|_]; [lra|].
  pose proof (IntervalFacts.np_std_nonneg (SkyPattern.np_diff t)) as Hs.
  destruct (Rle_dec _ _) as [_|H]; [reflexivity|].
  exfalso. apply H. unfold Rdiv at 1.
  assert (/ ((nth (length t - 1) t 0 - nth 0 t 0) / INR (length t - 1)) < 0)
    by (apply Rinv_lt_0_compat; exact Hm).
  nra.
Qed.

Lemma sample_interval_decreasing_accepted_witness :
  ((2 <= length [5; 1; 4])%nat /\ nth (length [5; 1; 4] - 1) [5; 1; 4] 0 < nth 0 [5; 1; 4] 0) /\
  SkyPattern.sample_interval_of [5; 1; 4]
    = Normal ((nth (length [5; 1; 4] - 1) [5; 1; 4] 0 - nth 0 [5; 1; 4] 0) / INR (length [5; 1; 4] - 1)).
Proof.
  split; [split; [cbn; lia | cbn; lra]|].
  apply sample_interval_decreasing_accepted; [cbn; lia | cbn; lra].
Defined.

(* ------------------------------------------------------------------ *)
(** ** Repeats, scan duration and [save_data] *)

Module DurationFacts.

Lemma last_row_nonempty (data : list Sample) :
  data <> [] -> SkyPattern.last_row data = Normal (nth (length data - 1) data (mkSample 0 0 0)).
Proof.
  intros Hne. destruct (RepeatFacts.rev_nth_last data (mkSample 0 0 0) Hne) as [l' Hr].
  unfold SkyPattern.last_row. rewrite Hr. reflexivity.
Qed.

Lemma last_row_inv (data : list Sample) (l : Sample) :
  SkyPattern.last_row data = Normal l ->
  data <> [] /\ l = nth (length data - 1) data (mkSample 0 0 0).
Proof.
  intros H. destruct data as [|a r]; [discriminate|].
  split; [discriminate|]. rewrite last_row_nonempty in H by discriminate.
  injection H as <-. reflexivity.
Qed.

(** What [_repeat_scan] returns, once it returns. *)
Lemma repeat_scan_inv (p : SkyPattern.RepeatParam) (si : R) (data d : list Sample) (n : Z) :
  SkyPattern.repeat_scan p si data = Normal (n, d) ->
  data <> [] /\
  d = (if (1 <? n)%Z then
         fold_left (fun acc i => acc ++ SkyPattern.shift_copy
            ((time_offset (nth (length data - 1) data (mkSample 0 0 0)) + si) * INR i) data)
           (seq 1 (Z.to_nat n - 1)) data
       else data).
Proof.
  intros H. unfold SkyPattern.repeat_scan in H.
  destruct (SkyPattern.last_row data) as [l|e] eqn:El; cbn [bind] in H; [|discriminate].
  apply last_row_inv in El as [Hne ->]. split; [exact Hne|].
  cbv zeta in H.
  match type of H with bind ?m _ = _ => destruct m as [nr|e]; cbn [bind] in H; [|discriminate] end.
  injection H as <- <-. reflexivity.
Qed.

(** The last sample of [num_repeat >= 1] copies ends [num_repeat] one-period
    durations after the start. *)
Lemma repeated_duration (data : list Sample) (si : R) (n : Z) :
  data <> [] -> (1 <= n)%Z ->
  SkyPattern.scan_duration si
    (if (1 <? n)%Z then
       fold_left (fun acc i => acc ++ SkyPattern.shift_copy
          ((time_offset (nth (length data - 1) data (mkSample 0 0 0)) + si) * INR i) data)
         (seq 1 (Z.to_nat n - 1)) data
     else data)
  = Normal (IZR n * (time_offset (nth (length data - 1) data (mkSample 0 0 0)) + si)).
Proof.
  intros Hne Hn. rewrite RepeatFacts.repeat_body_blocks by exact Hn.
  set (c := time_offset (nth (length data - 1) data (mkSample 0 0 0)) + si).
  set (N := Z.to_nat n).
  assert (HN : (1 <= N)%nat) by (unfold N; lia).
  assert (Hl : (1 <= length data)%nat) by (destruct data; [congruence | cbn [length]; lia]).
  pose proof (RepeatFacts.blocks_length c data N) as Hlen.
  unfold SkyPattern.scan_duration. rewrite last_row_nonempty.
  2:{ intros E. rewrite E in Hlen. cbn [length] in Hlen. nia. }
  cbn [bind]. rewrite Hlen.
  replace (length data * N - 1)%nat with ((N - 1) * length data + (length data - 1))%nat by nia.
  rewrite RepeatFacts.blocks_nth by lia. cbn [time_offset]. f_equal.
  fold c. rewrite minus_INR by lia. unfold N. rewrite INR_IZR_INZ, Z2Nat.id by lia.
  cbn [INR]. unfold c. ring.
Qed.

End DurationFacts.

(** After [_repeat_scan] with [num_repeat >= 1], the [scan_duration] of the
    repeated data is [num_repeat] times that of the one-period data. *)
Theorem repeat_scan_scan_duration (p : SkyPattern.RepeatParam) (si : R) (data d : list Sample)
    (n : Z) (osd : R) :
  SkyPattern.repeat_scan p si data = Normal (n, d) -> (1 <= n)%Z ->
  SkyPattern.scan_duration si data = Normal osd ->
  SkyPattern.scan_duration si d = Normal (IZR n * osd).
Proof.
  intros H Hn Hosd. apply DurationFacts.repeat_scan_inv in H as [Hne ->].
  unfold SkyPattern.scan_duration in Hosd. rewrite DurationFacts.last_row_nonempty in Hosd by exact Hne.
  cbn [bind] in Hosd. injection Hosd as <-. apply DurationFacts.repeated_duration; assumption.
Qed.

Lemma repeat_scan_scan_duration_witness :
  exists d,
    SkyPattern.repeat_scan (SkyPattern.mkRepeatParam (SkyPattern.NRint 3) None) 1
      [mkSample 0 0 0; mkSample 1 1 0] = Normal (3%Z, d) /\
    (1 <= 3)%Z /\
    SkyPattern.scan_duration 1 [mkSample 0 0 0; mkSample 1 1 0] = Normal (1 + 1) /\
    SkyPattern.scan_duration 1 d = Normal (IZR 3 * (1 + 1)).
Proof.
  eexists. split; [reflexivity|]. split; [lia|]. split; [reflexivity|].
  eapply (repeat_scan_scan_duration (SkyPattern.mkRepeatParam (SkyPattern.NRint 3) None) 1
            [mkSample 0 0 0; mkSample 1 1 0]); [reflexivity | lia | reflexivity].
Defined.

(** With [max_scan_duration] (and a positive one-period duration), the
    repeated scan lasts at most [max_scan_duration], and one more period
    would exceed it. *)
Theorem repeat_scan_max_scan_duration (msd si osd : R) (data d : list Sample) (n : Z) :
  SkyPattern.repeat_scan (SkyPattern.mkRepeatParam SkyPattern.NRnan (Some msd)) si data
    = Normal (n, d) ->
  SkyPattern.scan_duration si data = Normal osd -> 0 < osd ->
  exists total, SkyPattern.scan_duration si d = Normal total /\ total <= msd < total + osd.
Proof.
  intros H Hosd Hpos.
  destruct (DurationFacts.repeat_scan_inv _ _ _ _ _ H) as [Hne Hd].
  unfold SkyPattern.scan_duration in Hosd. rewrite DurationFacts.last_row_nonempty in Hosd by exact Hne.
  cbn [bind] in Hosd. injection Hosd as Hosd.
  unfold SkyPattern.repeat_scan in H. rewrite DurationFacts.last_row_nonempty in H by exact Hne.
  cbn [bind SkyPattern.num_repeat SkyPattern.max_scan_duration] in H. cbv zeta in H.
  rewrite Hosd in H. rewrite py_div_nz in H by lra. cbn [bind] in H.
  destruct (py_floor (msd / osd) <? 1)%Z eqn:Ef; [discriminate|].
  cbn [bind] in H. injection H as Hn _. apply Z.ltb_ge in Ef. rewrite Hn in Ef.
  exists (IZR n * osd). split.
  - rewrite Hd, <- Hosd. apply DurationFacts.repeated_duration; assumption.
  - destruct (Zfloor_bound (msd / osd)) as [Hlo Hhi]. unfold py_floor in Hn. rewrite Hn in Hlo, Hhi.
    assert (Hx : msd = osd * (msd / osd)) by (field; lra).
    split.
    + apply Rmult_le_compat_l with (r := osd) in Hlo; lra.
    + apply Rmult_lt_compat_l with (r := osd) in Hhi; lra.
Qed.

Lemma repeat_scan_max_scan_duration_witness :
  exists d,
    SkyPattern.repeat_scan (SkyPattern.mkRepeatParam SkyPattern.NRnan (Some 5)) 1
      [mkSample 0 0 0; mkSample 1 1 0] = Normal (2%Z, d) /\
    SkyPattern.scan_duration 1 [mkSample 0 0 0; mkSample 1 1 0] = Normal 2 /\ 0 < 2 /\
    exists total, SkyPattern.scan_duration 1 d = Normal total /\ total <= 5 < total + 2.
Proof.
  assert (Hf : py_floor (5 / (1 + 1)) = 2%Z)
    by (unfold py_floor; apply Zfloor_eq; lra).
  assert (H2 : (1 + 1 : R) <> 0) by lra.
  eexists. split.
  - unfold SkyPattern.repeat_scan. cbn [SkyPattern.last_row rev app bind SkyPattern.num_repeat
      SkyPattern.max_scan_duration time_offset].
    unfold py_div. destruct (Req_EM_T (1 + 1) 0) as [E|_]; [lra|]. cbn [bind].
    rewrite Hf. reflexivity.
  - split; [cbn; f_equal; lra|]. split; [lra|].
    eapply (repeat_scan_max_scan_duration 5 1 2 [mkSample 0 0 0; mkSample 1 1 0]); [|cbn; f_equal; lra | lra].
    unfold SkyPattern.repeat_scan. cbn [SkyPattern.last_row rev app bind SkyPattern.num_repeat
      SkyPattern.max_scan_duration time_offset].
    unfold py_div. destruct (Req_EM_T (1 + 1) 0) as [E|_]; [lra|]. cbn [bind].
    rewrite Hf. reflexivity.
Defined.

(** [save_data(include_repeats=False)] on the repeated data returns the
    columns of the one-period data (the [num_repeat] being the one
    [_repeat_scan] stored). *)
Theorem save_data_without_repeats (p : SkyPattern.RepeatParam) (si : R) (data d : list Sample) (n : Z) :
  SkyPattern.repeat_scan p si data = Normal (n, d) ->
  SkyPattern.save_data false n d = SkyPattern.save_data true n data.
Proof.
  intros H. apply DurationFacts.repeat_scan_inv in H as [Hne ->].
  destruct (Z.lt_ge_cases 1 n) as [En|En].
  2:{ replace (1 <? n)%Z with false by (symmetry; apply Z.ltb_ge; exact En).
      unfold SkyPattern.save_data. replace (1 <? n)%Z with false by (symmetry; apply Z.ltb_ge; exact En).
      reflexivity. }
  rewrite RepeatFacts.repeat_body_blocks by lia.
  unfold SkyPattern.save_data.
  replace (1 <? n)%Z with true by (symmetry; apply Z.ltb_lt; exact En). cbn [negb andb].
  set (c := time_offset (nth (length data - 1) data (mkSample 0 0 0)) + si).
  rewrite RepeatFacts.blocks_length.
  replace (py_floor (INR (length data * Z.to_nat n) / IZR n)) with (Z.of_nat (length data)).
  2:{ unfold py_floor. rewrite mult_INR, (INR_IZR_INZ (Z.to_nat n)), Z2Nat.id by lia.
      replace (INR (length data) * IZR n / IZR n) with (IZR (Z.of_nat (length data))).
      - symmetry. apply ZfloorZ.
      - rewrite <- INR_IZR_INZ. field. apply not_0_IZR. lia. }
  rewrite Nat2Z.id.
  replace (Z.to_nat n) with (S (Z.to_nat n - 1)) by lia. cbn [seq map concat].
  rewrite (RepeatFacts.shift_copy_zero (c * INR 0)) by (cbn [INR]; ring).
  rewrite firstn_app, firstn_all, Nat.sub_diag, firstn_O, app_nil_r. reflexivity.
Qed.

Lemma save_data_without_repeats_witness :
  exists d,
    SkyPattern.repeat_scan (SkyPattern.mkRepeatParam (SkyPattern.NRint 2) None) 1
      [mkSample 0 0 0; mkSample 1 1 0] = Normal (2%Z, d) /\
    SkyPattern.save_data false 2 d = SkyPattern.save_data true 2 [mkSample 0 0 0; mkSample 1 1 0].
Proof.
  eexists. split; [reflexivity|].
  eapply (save_data_without_repeats (SkyPattern.mkRepeatParam (SkyPattern.NRint 2) None) 1).
  reflexivity.
Defined.

(** An integer [num_repeat] is not checked: a repeatable pattern given any
    [num_repeat <= 1] (0 and negative values included) is built, with that
    [num_repeat] stored and the data not repeated. *)
Theorem num_repeat_not_validated (n : Z) (si : R) (data : list Sample) :
  data <> [] -> (n <= 1)%Z ->
  (let* rp := SkyPattern.clean_param true (SkyPattern.mkRepeatKwargs (Some n) None) in
   SkyPattern.repeat_scan rp si data) = Normal (n, data).
Proof.
  intros Hne Hn. cbn [SkyPattern.clean_param SkyPattern.kw_max_scan_duration
    SkyPattern.kw_num_repeat bind].
  unfold SkyPattern.repeat_scan. rewrite DurationFacts.last_row_nonempty by exact Hne.
  cbn [bind SkyPattern.num_repeat].
  destruct (1 <? n)%Z eqn:E; [apply Z.ltb_lt in E; lia | reflexivity].
Qed.

Lemma num_repeat_not_validated_witness :
  ([mkSample 0 0 0] <> [] /\ (0 <= 1)%Z) /\
  (let* rp := SkyPattern.clean_param true (SkyPattern.mkRepeatKwargs (Some 0%Z) None) in
   SkyPattern.repeat_scan rp 1 [mkSample 0 0 0]) = Normal (0%Z, [mkSample 0 0 0]).
Proof.
  split; [split; [discriminate | lia]|]. apply num_repeat_not_validated; [discriminate | lia].
Defined.

(* ------------------------------------------------------------------ *)
(** ** Pong positions *)

Module FourierFacts.
Import Pong.

Lemma fold_left_ext_in {A B : Type} (f g : A -> B -> A) (l : list B) (a : A) :
  (forall x b, In b l -> f x b = g x b) -> fold_left f l a = fold_left g l a.
Proof.
  revert a; induction l as [|b l IH]; intros a H; cbn [fold_left]; [reflexivity|].
  rewrite H by (left; reflexivity). apply IH. intros x c Hc. apply H. right. exact Hc.
Qed.

Lemma fold_left_opp {B : Type} (f g : R -> B -> R) (l : list B) (a : R) :
  (forall x b, In b l -> f (- x) b = - g x b) -> fold_left f l (- a) = - fold_left g l a.
Proof.
  revert a; induction l as [|b l IH]; intros a H; cbn [fold_left]; [reflexivity|].
  rewrite H by (left; reflexivity). apply IH. intros x c Hc. apply H. right. exact Hc.
Qed.

(** The sum over the odd harmonics, once [b] is known. *)
Lemma fourier_expansion_eq (num_term : Z) (amp t peri : R) :
  peri <> 0 ->
  fourier_expansion num_term amp t peri =
  Normal (fold_left (fun pos n => pos + (-1) ^ ((n - 1) / 2) / (INR n ^ 2)
                                   * sin (2 * PI / peri * INR n * t))
            (odd_range (num_term * 2 - 1)) 0 * (8 * amp / PI ^ 2)).
Proof. intros H. unfold fourier_expansion. rewrite py_div_nz by exact H. reflexivity. Qed.

Lemma fourier_expansion_zero_peri (num_term : Z) (amp t : R) :
  fourier_expansion num_term amp t 0 = Throw ZeroDivisionError.
Proof.
  unfold fourier_expansion, py_div. destruct (Req_EM_T 0 0) as [_|H]; [reflexivity | congruence].
Qed.

Lemma fourier_periodic (num_term : Z) (amp t peri : R) (k : Z) :
  fourier_expansion num_term amp (t + IZR k * peri) peri = fourier_expansion num_term amp t peri.
Proof.
  destruct (Req_dec peri 0) as [->|Hp]; [rewrite !fourier_expansion_zero_peri; reflexivity|].
  rewrite !fourier_expansion_eq by exact Hp. do 2 f_equal.
  apply fold_left_ext_in. intros x n _. f_equal. f_equal.
  rewrite <- (TrigFacts.sin_period_Z (2 * PI / peri * INR n * t) (Z.of_nat n * k)).
  f_equal. rewrite mult_IZR, <- INR_IZR_INZ. field. exact Hp.
Qed.

Lemma fourier_at_zero (num_term : Z) (amp peri : R) :
  peri <> 0 -> fourier_expansion num_term amp 0 peri = Normal 0.
Proof.
  intros Hp. rewrite fourier_expansion_eq by exact Hp. f_equal.
  replace (fold_left _ _ 0) with (fold_left (fun pos (n : nat) => pos + 0) (odd_range (num_term * 2 - 1)) 0).
  2:{ apply fold_left_ext_in. intros x n _. rewrite Rmult_0_r, sin_0. ring. }
  assert (Hz : forall l : list nat, fold_left (fun pos (_ : nat) => pos + 0) l 0 = 0).
  { induction l as [|a l IH]; cbn [fold_left]; [reflexivity|]. rewrite Rplus_0_r. exact IH. }
  rewrite Hz. ring.
Qed.

(** The samples of [sample_loop]: sample [j] is at [t + j*si]; the first
    one is the position at [t]. *)
Lemma sample_loop_times n ax ay px py ang si i t data :
  sample_loop n ax ay px py ang si i t = Normal data ->
  forall j, (j < length data)%nat -> time_offset (nth j data (mkSample 0 0 0)) = t + INR j * si.
Proof.
  revert t data; induction i as [|i IH]; intros t data H j Hj; cbn [sample_loop] in H.
  - injection H as <-. cbn [length] in Hj. lia.
  - destruct (fourier_expansion n ax t px) as [vx|e]; cbn [bind] in H; [|discriminate].
    destruct (fourier_expansion n ay t py) as [vy|e]; cbn [bind] in H; [|discriminate].
    destruct (sample_loop n ax ay px py ang si i (t + si)) as [rest|e] eqn:Er; cbn [bind] in H;
      [|discriminate].
    injection H as <-. destruct j as [|j].
    + cbn. ring.
    + cbn [nth]. cbn [length] in Hj. rewrite (IH (t + si) rest Er j) by lia. rewrite S_INR. ring.
Qed.

Lemma sample_loop_head n ax ay px py ang si i t data :
  sample_loop n ax ay px py ang si (S i) t = Normal data ->
  exists vx vy rest,
    fourier_expansion n ax t px = Normal vx /\ fourier_expansion n ay t py = Normal vy /\
    data = mkSample t (vx * cos ang - vy * sin ang) (vx * sin ang + vy * cos ang) :: rest.
Proof.
  intros H. cbn [sample_loop] in H.
  destruct (fourier_expansion n ax t px) as [vx|e]; cbn [bind] in H; [|discriminate].
  destruct (fourier_expansion n ay t py) as [vy|e]; cbn [bind] in H; [|discriminate].
  destruct (sample_loop n ax ay px py ang si i (t + si)) as [rest|e]; cbn [bind] in H; [|discriminate].
  injection H as <-. exists vx, vy, rest. auto.
Qed.

(** The samples of a successful [one_period_from_vavg] come from
    [sample_loop] started at time 0. *)
Lemma one_period_from_vavg_loop (p : PongParam) (vavg_of : R -> Completion R) (scan : PongScan) :
  one_period_from_vavg p vavg_of = Normal scan ->
  sample_loop (num_term p)
    (IZR (x_numvert scan) * vert_spacing (spacing p) / 2)
    (IZR (y_numvert scan) * vert_spacing (spacing p) / 2)
    (peri_x scan) (peri_y scan) (radians (angle p)) (sample_interval p)
    (Z.to_nat (pongcount scan)) 0 = Normal (one_period scan).
Proof.
  intros H. unfold one_period_from_vavg in H. cbv zeta in H.
  destruct (numvert (width p) (height p) (spacing p)) as [[x y]|e]; cbn [bind] in H; [|discriminate].
  do 6 (match type of H with
        | bind ?m _ = _ => destruct m eqn:?; cbn [bind] in H; [|discriminate]
        end).
  injection H as <-. cbn [x_numvert y_numvert peri_x peri_y pongcount one_period].
  assumption.
Qed.

(** One generated period, for a positive per-axis speed [v]: it starts at
    the origin at time 0, sample [i] is at [i * sample_interval], and both
    axes come back to the same position after [period]. *)
Lemma one_period_shape (p : PongParam) (vavg_of : R -> Completion R) (v : R) :
  0 < width p -> 0 < height p -> 0 < spacing p -> 0 < sample_interval p ->
  vavg_of (velocity p) = Normal v -> 0 < v ->
  exists scan, one_period_from_vavg p vavg_of = Normal scan /\
    hd_error (one_period scan) = Some (mkSample 0 0 0) /\
    (forall i, (i < length (one_period scan))%nat ->
       time_offset (nth i (one_period scan) (mkSample 0 0 0)) = INR i * sample_interval p) /\
    (forall t,
       fourier_expansion (num_term p) (IZR (x_numvert scan) * vert_spacing (spacing p) / 2)
         (t + period scan) (peri_x scan)
       = fourier_expansion (num_term p) (IZR (x_numvert scan) * vert_spacing (spacing p) / 2)
           t (peri_x scan) /\
       fourier_expansion (num_term p) (IZR (y_numvert scan) * vert_spacing (spacing p) / 2)
         (t + period scan) (peri_y scan)
       = fourier_expansion (num_term p) (IZR (y_numvert scan) * vert_spacing (spacing p) / 2)
           t (peri_y scan)).
Proof.
  intros Hw Hh Hs Hsi Hv Hvpos.
  destruct (PongFacts.one_period_from_vavg_spec p vavg_of v Hw Hh Hs Hsi Hv Hvpos)
    as (scan & E & Hnv & _ & Hpx & Hpy & Hper & Hcnt & Hlen).
  destruct (PongFacts.numvert_spec _ _ _ Hw Hh Hs) as (x & y & E' & Hx & Hy & _).
  rewrite E' in Hnv. injection Hnv as Ex Ey.
  pose proof (PongFacts.vert_spacing_pos _ Hs) as Hvs.
  assert (Hx0 : 0 < IZR (x_numvert scan)) by (rewrite <- Ex; apply IZR_lt; lia).
  assert (Hy0 : 0 < IZR (y_numvert scan)) by (rewrite <- Ey; apply IZR_lt; lia).
  assert (Hpx0 : peri_x scan <> 0).
  { rewrite Hpx. apply Rgt_not_eq, Rdiv_lt_0_compat; [nra | exact Hvpos]. }
  assert (Hpy0 : peri_y scan <> 0).
  { rewrite Hpy. apply Rgt_not_eq, Rdiv_lt_0_compat; [nra | exact Hvpos]. }
  assert (Hperpos : 0 < period scan).
  { rewrite Hper. apply Rdiv_lt_0_compat; [|exact Hvpos].
    assert (0 < IZR (x_numvert scan) * IZR (y_numvert scan)) by nra. nra. }
  assert (Hc : (1 <= pongcount scan)%Z).
  { rewrite Hcnt. apply py_ceil_pos, Rdiv_lt_0_compat; assumption. }
  pose proof (one_period_from_vavg_loop p vavg_of scan E) as Hloop.
  exists scan. split; [exact E|]. split; [|split].
  - replace (Z.to_nat (pongcount scan)) with (S (Z.to_nat (pongcount scan) - 1)) in Hloop by lia.
    destruct (sample_loop_head _ _ _ _ _ _ _ _ _ _ Hloop) as (vx & vy & rest & Hvx & Hvy & ->).
    rewrite fourier_at_zero in Hvx by exact Hpx0. rewrite fourier_at_zero in Hvy by exact Hpy0.
    injection Hvx as <-. injection Hvy as <-. cbn [hd_error]. f_equal. f_equal; ring.
  - intros i Hi. rewrite (sample_loop_times _ _ _ _ _ _ _ _ _ _ Hloop i Hi). ring.
  - intros t. split.
    + replace (period scan) with (IZR (y_numvert scan) * peri_x scan)
        by (rewrite Hper, Hpx; field; lra).
      apply fourier_periodic.
    + replace (period scan) with (IZR (x_numvert scan) * peri_y scan)
        by (rewrite Hper, Hpy; field; lra).
      apply fourier_periodic.
Qed.

End FourierFacts.

(** [_fourier_expansion] is periodic in [t_count] with period [peri]:
    shifting the time by a whole number of periods gives the same position
    ([peri = 0] raises [ZeroDivisionError] at every time). *)
Theorem fourier_expansion_periodic (num_term : Z) (amp t peri : R) (k : Z) :
  Pong.fourier_expansion num_term amp (t + IZR k * peri) peri
  = Pong.fourier_expansion num_term amp t peri.
Proof. apply FourierFacts.fourier_periodic. Qed.

(** [_fourier_expansion] is odd in [t_count]: the position at [-t] is the
    opposite of the position at [t] (and it raises for both or neither). *)
Theorem fourier_expansion_odd (num_term : Z) (amp t peri : R) :
  Pong.fourier_expansion num_term amp (- t) peri
  = (let* v := Pong.fourier_expansion num_term amp t peri in Normal (- v)).
Proof.
  destruct (Req_dec peri 0) as [->|Hp].
  { rewrite !FourierFacts.fourier_expansion_zero_peri. reflexivity. }
  rewrite !FourierFacts.fourier_expansion_eq by exact Hp. cbn [bind]. f_equal.
  match goal with
  | |- fold_left ?f ?l 0 * ?a = - (fold_left ?g ?l 0 * ?a) =>
      replace (fold_left f l 0) with (fold_left f l (- 0)) by (rewrite Ropp_0; reflexivity);
      rewrite (FourierFacts.fold_left_opp f g l 0)
  end.
  - ring.
  - intros x n _. cbv beta.
    replace (2 * PI / peri * INR n * - t) with (- (2 * PI / peri * INR n * t)) by ring.
    rewrite sin_neg. ring.
Qed.

(** A generated Pong period (coordinates.py's [Pong] and scanning.py's
    [CurvyPong]), for positive sizes, velocity and sample interval, starts at
    the origin [(0, 0)] at time 0 and has its sample [i] at time
    [i * sample_interval]. *)
Theorem pong_one_period_samples (p : Pong.PongParam) :
  0 < Pong.width p -> 0 < Pong.height p -> 0 < Pong.spacing p ->
  0 < Pong.velocity p -> 0 < Pong.sample_interval p ->
  (exists scan, Pong.generate_one_period p = Normal scan /\
    hd_error (Pong.one_period scan) = Some (mkSample 0 0 0) /\
    forall i, (i < length (Pong.one_period scan))%nat ->
      time_offset (nth i (Pong.one_period scan) (mkSample 0 0 0)) = INR i * Pong.sample_interval p) /\
  (exists scan, CurvyPong.generate_one_period p = Normal scan /\
    hd_error (Pong.one_period scan) = Some (mkSample 0 0 0) /\
    forall i, (i < length (Pong.one_period scan))%nat ->
      time_offset (nth i (Pong.one_period scan) (mkSample 0 0 0)) = INR i * Pong.sample_interval p).
Proof.
  intros Hw Hh Hs Hv Hsi.
  assert (H2 : 0 < sqrt 2) by (apply sqrt_lt_R0; lra).
  split.
  - destruct (FourierFacts.one_period_shape p (fun velocity => py_div velocity (sqrt 2))
                (Pong.velocity p / sqrt 2) Hw Hh Hs Hsi)
      as (scan & E & Hhd & Ht & _).
    + apply py_div_nz. lra.
    + apply Rdiv_lt_0_compat; assumption.
    + exists scan. auto.
  - destruct (FourierFacts.one_period_shape p (fun velocity => Normal velocity)
                (Pong.velocity p) Hw Hh Hs Hsi eq_refl Hv)
      as (scan & E & Hhd & Ht & _).
    exists scan. auto.
Qed.

Lemma pong_one_period_samples_witness :
  let p := Pong.mkPongParam 5 2 (3/2) (1/10) (1/2) 0 (1/100) in
  (0 < Pong.width p /\ 0 < Pong.height p /\ 0 < Pong.spacing p /\
   0 < Pong.velocity p /\ 0 < Pong.sample_interval p) /\
  (exists scan, Pong.generate_one_period p = Normal scan /\
    hd_error (Pong.one_period scan) = Some (mkSample 0 0 0) /\
    forall i, (i < length (Pong.one_period scan))%nat ->
      time_offset (nth i (Pong.one_period scan) (mkSample 0 0 0)) = INR i * Pong.sample_interval p) /\
  (exists scan, CurvyPong.generate_one_period p = Normal scan /\
    hd_error (Pong.one_period scan) = Some (mkSample 0 0 0) /\
    forall i, (i < length (Pong.one_period scan))%nat ->
      time_offset (nth i (Pong.one_period scan) (mkSample 0 0 0)) = INR i * Pong.sample_interval p).
Proof.
  intros p. split; [cbn; lra|].
  apply (pong_one_period_samples p); cbn; lra.
Defined.

(** The Pong path closes after one [period]: for positive sizes, velocity
    and sample interval, the position of each axis given by
    [_fourier_expansion] (amplitude [numvert*vert_spacing/2], axis period
    [peri]) is the same at [t + period] as at [t], for every [t]. *)
Theorem pong_path_closes (p : Pong.PongParam) :
  0 < Pong.width p -> 0 < Pong.height p -> 0 < Pong.spacing p ->
  0 < Pong.velocity p -> 0 < Pong.sample_interval p ->
  let vs := Pong.vert_spacing (Pong.spacing p) in
  exists scan, Pong.generate_one_period p = Normal scan /\
    forall t,
      Pong.fourier_expansion (Pong.num_term p) (IZR (Pong.x_numvert scan) * vs / 2)
        (t + Pong.period scan) (Pong.peri_x scan)
      = Pong.fourier_expansion (Pong.num_term p) (IZR (Pong.x_numvert scan) * vs / 2)
          t (Pong.peri_x scan) /\
      Pong.fourier_expansion (Pong.num_term p) (IZR (Pong.y_numvert scan) * vs / 2)
        (t + Pong.period scan) (Pong.peri_y scan)
      = Pong.fourier_expansion (Pong.num_term p) (IZR (Pong.y_numvert scan) * vs / 2)
          t (Pong.peri_y scan).
Proof.
  intros Hw Hh Hs Hv Hsi vs.
  assert (H2 : 0 < sqrt 2) by (apply sqrt_lt_R0; lra).
  destruct (FourierFacts.one_period_shape p (fun velocity => py_div velocity (sqrt 2))
              (Pong.velocity p / sqrt 2) Hw Hh Hs Hsi)
    as (scan & E & _ & _ & Hcl).
  - apply py_div_nz. lra.
  - apply Rdiv_lt_0_compat; assumption.
  - exists scan. split; [exact E | exact Hcl].
Qed.

Lemma pong_path_closes_witness :
  let p := Pong.mkPongParam 5 2 (3/2) (1/10) (1/2) 0 (1/100) in
  let vs := Pong.vert_spacing (Pong.spacing p) in
  (0 < Pong.width p /\ 0 < Pong.height p /\ 0 < Pong.spacing p /\
   0 < Pong.velocity p /\ 0 < Pong.sample_interval p) /\
  exists scan, Pong.generate_one_period p = Normal scan /\
    forall t,
      Pong.fourier_expansion (Pong.num_term p) (IZR (Pong.x_numvert scan) * vs / 2)
        (t + Pong.period scan) (Pong.peri_x scan)
      = Pong.fourier_expansion (Pong.num_term p) (IZR (Pong.x_numvert scan) * vs / 2)
          t (Pong.peri_x scan) /\
      Pong.fourier_expansion (Pong.num_term p) (IZR (Pong.y_numvert scan) * vs / 2)
        (t + Pong.period scan) (Pong.peri_y scan)
      = Pong.fourier_expansion (Pong.num_term p) (IZR (Pong.y_numvert scan) * vs / 2)
          t (Pong.peri_y scan).
Proof.
  intros p vs. split; [cbn; lra|].
  apply (pong_path_closes p); cbn; lra.
Defined.

(* ------------------------------------------------------------------ *)
(** ** Module location and sky-to-horizon conversion *)

Module LocFacts.

Lemma atan2_range (y x : R) : - PI < TelescopePattern.atan2 y x <= PI.
Proof.
  pose proof PI_RGT_0 as HPI. unfold TelescopePattern.atan2.
  destruct (Rlt_dec 0 x) as [Hx|Hx].
  - pose proof (atan_bound (y / x)). lra.
  - destruct (Rlt_dec x 0) as [Hx'|Hx'].
    + pose proof (atan_bound (y / x)).
      destruct (Rle_dec 0 y) as [Hy|Hy].
      * assert (atan (y / x) <= 0).
        { destruct (Req_dec y 0) as [->|Hy0].
          - replace (0 / x) with 0 by (field; lra). rewrite atan_0. lra.
          - rewrite <- atan_0. left. apply atan_increasing.
            assert (y / x = - (y / - x)) by (field; lra).
            assert (0 < y / - x) by (apply Rdiv_lt_0_compat; lra). lra. }
        lra.
      * assert (0 < atan (y / x)).
        { rewrite <- atan_0. apply atan_increasing.
          replace (y / x) with (- y / - x) by (field; lra).
          apply Rdiv_lt_0_compat; lra. }
        lra.
    + destruct (Rlt_dec 0 y); [lra|]. destruct (Rlt_dec y 0); lra.
Qed.

Lemma atan2_scale (d y x : R) :
  0 < d -> TelescopePattern.atan2 (d * y) (d * x) = TelescopePattern.atan2 y x.
Proof.
  intros Hd. unfold TelescopePattern.atan2.
  assert (Hq : x <> 0 -> d * y / (d * x) = y / x) by (intros; field; lra).
  destruct (Rlt_dec 0 (d * x)) as [H1|H1]; destruct (Rlt_dec 0 x) as [H2|H2];
    try (exfalso; nra).
  - rewrite Hq by lra. reflexivity.
  - destruct (Rlt_dec (d * x) 0) as [H3|H3]; destruct (Rlt_dec x 0) as [H4|H4];
      try (exfalso; nra).
    + rewrite Hq by lra.
      destruct (Rle_dec 0 (d * y)), (Rle_dec 0 y); try (exfalso; nra); reflexivity.
    + destruct (Rlt_dec 0 (d * y)), (Rlt_dec 0 y); try (exfalso; nra); [reflexivity|].
      destruct (Rlt_dec (d * y) 0), (Rlt_dec y 0); try (exfalso; nra); reflexivity.
Qed.

Lemma Forall2_map_fst_snd {A B : Type} (P : A -> B -> Prop) (r : list (A * B)) :
  Forall (fun q => P (fst q) (snd q)) r -> Forall2 P (map fst r) (map snd r).
Proof.
  induction r as [|q r IH]; intros H; cbn [map]; [constructor|].
  inversion H as [|? ? Hq Hr]; subst. constructor; [exact Hq | apply IH; exact Hr].
Qed.

End LocFacts.

(** Without an instrument offset, [_true_module_loc] of a module at
    distance [dist > 0] and angle [theta] on an instrument rotated by [rot]
    gives distance [dist] and the angle [theta + rot] brought into
    (-180, 180] by a multiple of 360 (all angles in deg). *)
Theorem true_module_loc_rotation (dist theta rot : R) :
  0 < dist ->
  fst (TelescopePattern.true_module_loc (TelescopePattern.mkInstrument 0 0 rot)
         (TelescopePattern.Loc dist theta)) = dist /\
  -180 < snd (TelescopePattern.true_module_loc (TelescopePattern.mkInstrument 0 0 rot)
                (TelescopePattern.Loc dist theta)) <= 180 /\
  exists k : Z,
    snd (TelescopePattern.true_module_loc (TelescopePattern.mkInstrument 0 0 rot)
           (TelescopePattern.Loc dist theta)) = theta + rot + 360 * IZR k.
Proof.
  intros Hd. pose proof PI_RGT_0 as HPI.
  cbn [TelescopePattern.true_module_loc TelescopePattern.instr_x TelescopePattern.instr_y
       TelescopePattern.instr_rot fst snd].
  set (a := radians theta + radians rot).
  replace (dist * cos (radians theta) * cos (radians rot) - dist * sin (radians theta) * sin (radians rot) + 0)
    with (dist * cos a) by (unfold a; rewrite cos_plus; ring).
  replace (dist * cos (radians theta) * sin (radians rot) + dist * sin (radians theta) * cos (radians rot) + 0)
    with (dist * sin a) by (unfold a; rewrite sin_plus; ring).
  rewrite LocFacts.atan2_scale by exact Hd.
  split; [|split].
  - replace ((dist * cos a) ^ 2 + (dist * sin a) ^ 2) with (dist ^ 2)
      by (assert (Hsc := sin2_cos2 a); unfold Rsqr in Hsc;
          replace (dist ^ 2) with (dist ^ 2 * (sin a * sin a + cos a * cos a)) by (rewrite Hsc; ring);
          ring).
    apply sqrt_pow2. lra.
  - pose proof (LocFacts.atan2_range (sin a) (cos a)) as [Hlo Hhi].
    unfold degrees. split.
    + apply Rmult_lt_compat_r with (r := 180 / PI) in Hlo; [|apply Rdiv_lt_0_compat; lra].
      replace (- PI * (180 / PI)) with (-180) in Hlo by (field; lra). exact Hlo.
    + apply Rmult_le_compat_r with (r := 180 / PI) in Hhi; [|left; apply Rdiv_lt_0_compat; lra].
      replace (PI * (180 / PI)) with 180 in Hhi by (field; lra). exact Hhi.
  - destruct (TrigFacts.atan2_sin_cos a) as [k Hk]. exists k. rewrite Hk.
    unfold degrees, a, radians. field. lra.
Qed.

Lemma true_module_loc_rotation_witness :
  0 < 2 /\
  fst (TelescopePattern.true_module_loc (TelescopePattern.mkInstrument 0 0 30)
         (TelescopePattern.Loc 2 170)) = 2 /\
  -180 < snd (TelescopePattern.true_module_loc (TelescopePattern.mkInstrument 0 0 30)
                (TelescopePattern.Loc 2 170)) <= 180 /\
  exists k : Z,
    snd (TelescopePattern.true_module_loc (TelescopePattern.mkInstrument 0 0 30)
           (TelescopePattern.Loc 2 170)) = 170 + 30 + 360 * IZR k.
Proof. split; [lra|]. apply true_module_loc_rotation. lra. Defined.

(** [_from_sky_pattern] gives one azimuth per altitude; every altitude lies
    in [-90, 90] deg, and the azimuth of every sample off the zenith and
    nadir (at a site off the poles) lies in [0, 360] deg. *)
Theorem from_sky_pattern_ranges (ra dec lat_rad : R) (lst x_coord y_coord : list R) :
  length (fst (TelescopePattern.from_sky_pattern ra dec lat_rad lst x_coord y_coord))
    = length (snd (TelescopePattern.from_sky_pattern ra dec lat_rad lst x_coord y_coord)) /\
  Forall (fun a => -90 <= a <= 90)
    (snd (TelescopePattern.from_sky_pattern ra dec lat_rad lst x_coord y_coord)) /\
  Forall2 (fun z a => cos lat_rad <> 0 -> -90 < a < 90 -> 0 <= z <= 360)
    (fst (TelescopePattern.from_sky_pattern ra dec lat_rad lst x_coord y_coord))
    (snd (TelescopePattern.from_sky_pattern ra dec lat_rad lst x_coord y_coord)).
Proof.
  pose proof PI_RGT_0 as HPI.
  assert (Hdeg : forall u v w, u <= v <= w -> u * (180 / PI) <= degrees v <= w * (180 / PI)).
  { intros u v w [H1 H2]. unfold degrees.
    assert (0 < 180 / PI) by (apply Rdiv_lt_0_compat; lra). split; apply Rmult_le_compat_r; lra. }
  unfold TelescopePattern.from_sky_pattern. cbv zeta. cbn [fst snd].
  split; [rewrite !length_map; reflexivity|]. split.
  - apply Forall_forall. intros a Ha. apply in_map_iff in Ha as [q [<- Hq]].
    apply in_map_iff in Hq as [[l [x y]] [<- _]]. cbn [TelescopePattern.from_sky_point snd].
    match goal with |- context [degrees (asin ?e)] =>
      pose proof (Hdeg _ _ _ (asin_bound e)) as [H1 H2] end.
    replace (- (PI / 2) * (180 / PI)) with (-90) in H1 by (field; lra).
    replace (PI / 2 * (180 / PI)) with 90 in H2 by (field; lra). lra.
  - apply LocFacts.Forall2_map_fst_snd, Forall_forall. intros q Hq _ _.
    apply in_map_iff in Hq as [[l [x y]] [<- _]].
    cbn [TelescopePattern.from_sky_point fst snd].
    match goal with |- context [acos ?c] => pose proof (acos_bound c) as Hb; set (z := acos c) in * end.
    destruct (Rgt_dec _ 0).
    + pose proof (Hdeg (2 * PI - PI) (2 * PI - z) (2 * PI - 0) ltac:(lra)) as [H1 H2].
      replace ((2 * PI - PI) * (180 / PI)) with 180 in H1 by (field; lra).
      replace ((2 * PI - 0) * (180 / PI)) with 360 in H2 by (field; lra). lra.
    + pose proof (Hdeg 0 _ PI Hb) as [H1 H2].
      replace (PI * (180 / PI)) with 180 in H2 by (field; lra). lra.
Qed.
